(** * Rakbank POC Kafka webhook: the AVRO string parser and the history store

    A shallow embedding of [main.py]: the two regular expressions of
    [AvroStringParser._extract_string_value] run on a backtracking matcher
    with the search discipline of Python's [re] (leftmost start, greedy
    repeats, longest alternative first), the parser with its [try]/[except],
    and the three webhook handlers over the two module globals. *)

From Stdlib Require Import List NArith ZArith Bool Lia String Ascii.
Import ListNotations.

Set Implicit Arguments.

(** [String] is loaded for literals only; lengths are lengths of lists. *)
Abbreviation length := List.length (only parsing).

(** ** Text *)

(** A Python [str] is a sequence of Unicode code points. *)
Definition char := N.
Definition str := list char.

Definition QUOTE : char := 34%N.
Definition COLON : char := 58%N.
Definition LBRACE : char := 123%N.
Definition RBRACE : char := 125%N.

(** Literals of this file are written with an apostrophe wherever the Python
    text has a quotation mark: [py "'usrname': 'alice'"] is the
    nineteen code points of the Python text with quotation marks. *)
Definition py_char (a : ascii) : char :=
  let n := N_of_ascii a in if N.eqb n 39 then QUOTE else n.

Definition py (s : string) : str := List.map py_char (list_ascii_of_string s).

(** [str.isspace] on one code point, which is what [\s] tests in a [str]
    pattern compiled without [re.ASCII]. *)
Definition is_space (c : char) : bool :=
  ((9 <=? c) && (c <=? 13) || (28 <=? c) && (c <=? 32)
   || (c =? 133) || (c =? 160) || (c =? 5760)
   || (8192 <=? c) && (c <=? 8202)
   || (c =? 8232) || (c =? 8233) || (c =? 8239) || (c =? 8287)
   || (c =? 12288))%N.

(** ** The regular-expression engine *)

Inductive charset :=
| CATEGORY_SPACE
| NOT_LITERAL (c : char).

Definition in_set (cs : charset) (c : char) : bool :=
  match cs with
  | CATEGORY_SPACE => is_space c
  | NOT_LITERAL x => negb (N.eqb c x)
  end.

(** The node kinds the two patterns compile to: a literal character, a
    greedy repeat of a one-character set with a lower bound, and the same
    repeat inside capture group 1. *)
Inductive node :=
| LITERAL (c : char)
| MAX_REPEAT (min : nat) (cs : charset)
| SUBPATTERN (min : nat) (cs : charset).

Definition pattern := list node.

Section Repeat.
Variable cs : charset.
(** What follows the repeat: it receives the text the repeat consumed and
    the text that is left. *)
Variable k : str -> str -> option str.

(** Greedy repeat: take characters of the set as long as there are some,
    then try the rest of the pattern; on failure give one character back
    and try again, never going under the lower bound. *)
Fixpoint repeat_max (min : nat) (taken s : str) {struct s} : option str :=
  match s with
  | c :: s' =>
      if in_set cs c then
        match repeat_max (Nat.pred min) (taken ++ [c]) s' with
        | Some g => Some g
        | None => match min with O => k taken s | S _ => None end
        end
      else match min with O => k taken s | S _ => None end
  | [] => match min with O => k taken [] | S _ => None end
  end.
End Repeat.

(** [sre_match p grp s]: match [p] at the very start of [s]; [grp] is the
    text of group 1 so far.  [Some g] is a match whose [group(1)] is [g]. *)
Fixpoint sre_match (p : pattern) (grp : str) (s : str) : option str :=
  match p with
  | [] => Some grp
  | LITERAL c :: p' =>
      match s with
      | x :: s' => if N.eqb x c then sre_match p' grp s' else None
      | [] => None
      end
  | MAX_REPEAT min cs :: p' =>
      repeat_max cs (fun _ rest => sre_match p' grp rest) min [] s
  | SUBPATTERN min cs :: p' =>
      repeat_max cs (fun taken rest => sre_match p' taken rest) min [] s
  end.

(** A match object, as far as the program looks at it. *)
Record Match := { start : nat; group1 : str }.

(** The start positions are tried from the left; the first that matches
    wins. *)
Fixpoint search_from (p : pattern) (pos : nat) (s : str) : option Match :=
  match sre_match p [] s with
  | Some g => Some {| start := pos; group1 := g |}
  | None => match s with
            | [] => None
            | _ :: s' => search_from p (S pos) s'
            end
  end.

(** [re.search(p, s)] *)
Definition re_search (p : pattern) (s : str) : option Match :=
  search_from p 0 s.

(** ** The field extractor *)

Definition lit (s : str) : pattern := List.map LITERAL s.

Definition WS : pattern := [MAX_REPEAT 0 CATEGORY_SPACE].

(** A field name made of letters, digits and underscores stands for itself
    when the f-string drops it into the pattern; the five names of the parser
    are of that kind. *)
Definition is_word_char (c : char) : bool :=
  ((48 <=? c) && (c <=? 57) || (65 <=? c) && (c <=? 90)
   || (97 <=? c) && (c <=? 122) || (c =? 95))%N.

Definition is_word_name (f : str) : bool := forallb is_word_char f.

(** Pattern 1, the union form (apostrophes for quotation marks):
    ['{field_name}'\s*:\s*{\s*'string'\s*:\s*'([^']+)'\s*}] *)
Definition pattern1 (field_name : str) : pattern :=
  lit (QUOTE :: field_name ++ [QUOTE]) ++ WS ++ lit [COLON] ++ WS
  ++ lit [LBRACE] ++ WS ++ lit (py "'string'") ++ WS ++ lit [COLON] ++ WS
  ++ lit [QUOTE] ++ [SUBPATTERN 1 (NOT_LITERAL QUOTE)] ++ lit [QUOTE]
  ++ WS ++ lit [RBRACE].

(** Pattern 2, the direct string: ['{field_name}'\s*:\s*'([^']+)'] *)
Definition pattern2 (field_name : str) : pattern :=
  lit (QUOTE :: field_name ++ [QUOTE]) ++ WS ++ lit [COLON] ++ WS
  ++ lit [QUOTE] ++ [SUBPATTERN 1 (NOT_LITERAL QUOTE)] ++ lit [QUOTE].

Definition UNKNOWN : str := py "UNKNOWN".

Definition _extract_string_value (avro_string field_name : str) : str :=
  match re_search (pattern1 field_name) avro_string with
  | Some m => group1 m
  | None =>
      match re_search (pattern2 field_name) avro_string with
      | Some m => group1 m
      | None => UNKNOWN
      end
  end.

(** ** Effects: exceptions, the wall clock, the two module globals *)

(** An exception caught by [except Exception as e], known by [str(e)]. *)
Record exn := Exception { description : str }.

Record HTTPException := { status_code : Z; detail : str }.

Inductive outcome (E A : Type) :=
| Returns (a : A)
| Raises (e : E).
Arguments Returns {E A} a.
Arguments Raises {E A} e.

(** A reading of [datetime.now()], with the text [isoformat()] gives for
    it; the calendar arithmetic behind that text is not modelled. *)
Record datetime := { timestamp : Z; isoformat : str }.

Record TransactionData := {
  authorizer_usrnbr : option str;
  creat_usrnbr : option str;
  creat_time : option str;
  data : option str;
  usrname : option str;
  received_at : datetime }.

(** The process: the readings the wall clock will give, how many were taken,
    and the globals [transaction_counter] and [transaction_storage]. *)
Record World := {
  wall_clock : nat -> datetime;
  ticks : nat;
  transaction_counter : Z;
  transaction_storage : list TransactionData }.

Definition Py (A : Type) : Type := World -> outcome exn A * World.

Definition ret {A} (a : A) : Py A := fun w => (Returns a, w).

Definition raise {A} (e : exn) : Py A := fun w => (Raises e, w).

Definition bind {A B} (c : Py A) (f : A -> Py B) : Py B :=
  fun w => match c w with
           | (Returns a, w') => f a w'
           | (Raises e, w') => (Raises e, w')
           end.

Notation "x <- c ;; k" := (bind c (fun x => k))
  (at level 61, c at next level, right associativity).
Notation "c ;;; k" := (bind c (fun _ => k))
  (at level 61, right associativity).

(** [try: body  except Exception as e: handler(e)]; what the body did to the
    process before it raised stays done. *)
Definition try_except {A} (body : Py A) (handler : exn -> Py A) : Py A :=
  fun w => match body w with
           | (Returns a, w') => (Returns a, w')
           | (Raises e, w') => handler e w'
           end.

Definition datetime_now : Py datetime :=
  fun w => (Returns (wall_clock w (ticks w)),
            {| wall_clock := wall_clock w; ticks := S (ticks w);
               transaction_counter := transaction_counter w;
               transaction_storage := transaction_storage w |}).

Definition set_transaction_counter (n : Z) : Py unit :=
  fun w => (Returns tt,
            {| wall_clock := wall_clock w; ticks := ticks w;
               transaction_counter := n;
               transaction_storage := transaction_storage w |}).

Definition set_transaction_storage (l : list TransactionData) : Py unit :=
  fun w => (Returns tt,
            {| wall_clock := wall_clock w; ticks := ticks w;
               transaction_counter := transaction_counter w;
               transaction_storage := l |}).

Definition get_transaction_counter : Py Z :=
  fun w => (Returns (transaction_counter w), w).

Definition get_transaction_storage : Py (list TransactionData) :=
  fun w => (Returns (transaction_storage w), w).

(** ** The data model *)

(** A keyword argument left out takes the default of its [Field]. *)
Definition field_default {A} (d : A) (kw : option A) : A :=
  match kw with
  | Some v => v
  | None => d
  end.

(** [TransactionData(...)]: each of the five texts may be passed or left out;
    [received_at] is never passed and comes from its [default_factory]. *)
Definition TransactionData_init
    (kw_authorizer_usrnbr kw_creat_usrnbr kw_creat_time kw_data kw_usrname
       : option (option str)) : Py TransactionData :=
  now <- datetime_now ;;
  ret {| authorizer_usrnbr := field_default (Some UNKNOWN) kw_authorizer_usrnbr;
         creat_usrnbr := field_default (Some UNKNOWN) kw_creat_usrnbr;
         creat_time := field_default (Some []) kw_creat_time;
         data := field_default (Some []) kw_data;
         usrname := field_default (Some UNKNOWN) kw_usrname;
         received_at := now |}.

Record TransactionResponse := {
  total_count : Z;
  last_10_transactions : list TransactionData;
  last_updated : datetime;
  poc_status : str;
  processing_mode : str }.

(** ** The parser *)

(** The calls of [logger] write to the log and touch nothing the program
    reads back; they are left out. *)

Definition _create_fallback_transaction (raw_data error_msg : str)
    : Py TransactionData :=
  now <- datetime_now ;;
  TransactionData_init
    (Some (Some (py "PARSE_ERROR")))
    (Some (Some (py "PARSE_ERROR")))
    (Some (Some (isoformat now)))
    (Some (Some (firstn 200 raw_data
                 ++ (if Nat.ltb 200 (length raw_data) then py "..." else []))))
    (Some (Some (py "ERROR: " ++ firstn 50 error_msg))).

Section Parser.
(** The extractor the [try] block calls five times.  The one of the source
    always returns; the [except] clause is written for any that may raise. *)
Variable extract : str -> str -> Py str.

Definition parse_try_block (raw_data : str) : Py TransactionData :=
  authorizer_usrnbr <- extract raw_data (py "authorizer_usrnbr") ;;
  creat_usrnbr <- extract raw_data (py "creat_usrnbr") ;;
  creat_time <- extract raw_data (py "creat_time") ;;
  data <- extract raw_data (py "data") ;;
  usrname <- extract raw_data (py "usrname") ;;
  TransactionData_init (Some (Some authorizer_usrnbr))
    (Some (Some creat_usrnbr)) (Some (Some creat_time))
    (Some (Some data)) (Some (Some usrname)).

Definition parse_avro_string_with (raw_data : str) : Py TransactionData :=
  try_except (parse_try_block raw_data)
    (fun e => _create_fallback_transaction raw_data (description e)).
End Parser.

Definition parse_avro_string : str -> Py TransactionData :=
  parse_avro_string_with (fun avro_string field_name =>
                            ret (_extract_string_value avro_string field_name)).

(** ** The webhook handlers *)

(** [l[-n:]] for a positive [n]. *)
Definition last_n {A} (n : nat) (l : list A) : list A :=
  skipn (length l - n) l.

(** The store step of the POST handler: append, count, keep the last ten. *)
Definition store_transaction (transaction : TransactionData) : Py unit :=
  storage <- get_transaction_storage ;;
  set_transaction_storage (storage ++ [transaction]) ;;;
  counter <- get_transaction_counter ;;
  set_transaction_counter (counter + 1) ;;;
  storage <- get_transaction_storage ;;
  if Nat.ltb 10 (length storage)
  then set_transaction_storage (last_n 10 storage)
  else ret tt.

Record WebhookAck := {
  ack_status : str;
  ack_message : str;
  ack_count : Z;
  ack_poc_id : Z;
  ack_user : option str;
  ack_received_at : str }.

(** The request, as far as the handler looks at it: what
    [raw_body.decode('utf-8')] does, return the text or raise. *)
Record Request := { body_decode : outcome exn str }.

Definition decode_body (request : Request) : Py str :=
  fun w => (body_decode request, w).

Definition receive_transaction (request : Request)
    : World -> outcome HTTPException WebhookAck * World :=
  fun w =>
    match (raw_data <- decode_body request ;;
           transaction <- parse_avro_string raw_data ;;
           store_transaction transaction ;;;
           counter <- get_transaction_counter ;;
           ret {| ack_status := py "success";
                  ack_message := py "Transaction received successfully";
                  ack_count := counter;
                  ack_poc_id := counter;
                  ack_user := usrname transaction;
                  ack_received_at := isoformat (received_at transaction) |}) w
    with
    | (Returns a, w') => (Returns a, w')
    | (Raises e, w') =>
        (Raises {| status_code := 400;
                   detail := py "Failed to process transaction: "
                             ++ description e |}, w')
    end.

Definition get_transactions : Py TransactionResponse :=
  storage <- get_transaction_storage ;;
  counter <- get_transaction_counter ;;
  now <- datetime_now ;;
  ret {| total_count := counter;
         last_10_transactions := rev storage;
         last_updated := now;
         poc_status := py "active";
         processing_mode := py "python_avro" |}.

Record ResetAck := {
  reset_status : str;
  reset_message : str;
  reset_timestamp : str }.

Definition reset_counters : Py ResetAck :=
  set_transaction_counter 0 ;;;
  set_transaction_storage [] ;;;
  now <- datetime_now ;;
  ret {| reset_status := py "success";
         reset_message := py "Counters reset successfully";
         reset_timestamp := isoformat now |}.

Record HealthAck := {
  health_status : str;
  health_service : str;
  health_version : str;
  health_timestamp : str;
  health_total_transactions : Z }.

Definition health_check : Py HealthAck :=
  now <- datetime_now ;;
  counter <- get_transaction_counter ;;
  ret {| health_status := py "healthy";
         health_service := py "rakbank-poc-kafka-webhook";
         health_version := py "1.0.0";
         health_timestamp := isoformat now;
         health_total_transactions := counter |}.

Record RootInfo := {
  root_message : str;
  root_version : str;
  root_processing_mode : str;
  root_endpoints : list (str * str) }.

Definition root : Py RootInfo :=
  ret {| root_message := py "Rakbank POC Kafka Webhook Service";
         root_version := py "1.0.0";
         root_processing_mode := py "python_avro_string";
         root_endpoints :=
           [(py "webhook_post", py "/webhook/user-transactions");
            (py "webhook_get", py "/webhook/user-transactions");
            (py "health", py "/health");
            (py "reset", py "/webhook/reset");
            (py "docs", py "/docs")] |}.

(** The process as it starts: nothing counted, nothing stored. *)
Definition initial_world (clock : nat -> datetime) : World :=
  {| wall_clock := clock; ticks := 0;
     transaction_counter := 0; transaction_storage := [] |}.

(** ** The two shapes of a field, as texts *)

Definition blank (w : str) : Prop := forallb is_space w = true.

Definition quote_free (v : str) : Prop :=
  forallb (fun c => negb (N.eqb c QUOTE)) v = true.

(** The union form: the quoted name, a colon, and an object with the one key
    [string], blanks allowed around colons and braces. *)
Inductive wrapped_form (f v : str) : str -> Prop :=
| Wrapped_form (w1 w2 w3 w4 w5 w6 : str) :
    blank w1 -> blank w2 -> blank w3 -> blank w4 -> blank w5 -> blank w6 ->
    quote_free v ->
    wrapped_form f v
      (QUOTE :: f ++ QUOTE :: w1 ++ COLON :: w2 ++ LBRACE :: w3
         ++ py "'string'" ++ w4 ++ COLON :: w5 ++ QUOTE :: v
         ++ QUOTE :: w6 ++ [RBRACE]).

(** The direct form: the quoted name, a colon and a quoted text. *)
Inductive bare_form (f v : str) : str -> Prop :=
| Bare_form (w1 w2 : str) :
    blank w1 -> blank w2 -> quote_free v ->
    bare_form f v
      (QUOTE :: f ++ QUOTE :: w1 ++ COLON :: w2 ++ QUOTE :: v ++ [QUOTE]).

(** [form] occurs in [raw] at offset [n] and carries the value [v]. *)
Definition occurs_at (form : str -> str -> Prop) (raw : str) (n : nat)
    (v : str) : Prop :=
  exists pre d post, raw = pre ++ d ++ post /\ length pre = n /\ form v d.

(** An occurrence the patterns can match has a value of one character at
    least. *)
Definition wrapped_at (f raw : str) (n : nat) (v : str) : Prop :=
  occurs_at (wrapped_form f) raw n v /\ v <> [].

Definition bare_at (f raw : str) (n : nat) (v : str) : Prop :=
  occurs_at (bare_form f) raw n v /\ v <> [].

(** The first occurrence: none starts further left. *)
Definition first_wrapped_at (f raw : str) (n : nat) (v : str) : Prop :=
  wrapped_at f raw n v /\ forall m v', wrapped_at f raw m v' -> n <= m.

Definition first_bare_at (f raw : str) (n : nat) (v : str) : Prop :=
  bare_at f raw n v /\ forall m v', bare_at f raw m v' -> n <= m.

Definition no_wrapped (f raw : str) : Prop :=
  forall n v, ~ wrapped_at f raw n v.

Definition no_bare (f raw : str) : Prop :=
  forall n v, ~ bare_at f raw n v.

(** Every field of the record holds a text: none is [None]. *)
Definition fully_populated (t : TransactionData) : Prop :=
  authorizer_usrnbr t <> None /\ creat_usrnbr t <> None
  /\ creat_time t <> None /\ data t <> None /\ usrname t <> None.

(** The five names the parser looks for. *)
Definition field_names : list str :=
  [py "authorizer_usrnbr"; py "creat_usrnbr"; py "creat_time"; py "data";
   py "usrname"].

Fixpoint str_eqb (a b : str) : bool :=
  match a, b with
  | [], [] => true
  | x :: a', y :: b' => N.eqb x y && str_eqb a' b'
  | _, _ => false
  end.

(** The field of the record that the parser fills from the name [name]. *)
Definition field_value (name : str) (t : TransactionData) : option str :=
  if str_eqb name (py "authorizer_usrnbr") then authorizer_usrnbr t
  else if str_eqb name (py "creat_usrnbr") then creat_usrnbr t
  else if str_eqb name (py "creat_time") then creat_time t
  else if str_eqb name (py "data") then data t
  else if str_eqb name (py "usrname") then usrname t
  else None.

(** The process after one reading of the clock. *)
Definition tick (w : World) : World :=
  {| wall_clock := wall_clock w; ticks := S (ticks w);
     transaction_counter := transaction_counter w;
     transaction_storage := transaction_storage w |}.

(** The store step run for each record of a list, first to last. *)
Fixpoint store_each (l : list TransactionData) : Py unit :=
  match l with
  | [] => ret tt
  | t :: l' => store_transaction t ;;; store_each l'
  end.

(** The event loop runs one handler at a time: none of them awaits between
    its reads and writes of the globals, so the process moves from one
    request to the next by whole handlers.  The root handler returns a
    constant and leaves the process as it is. *)
Inductive handled (w : World) : World -> Prop :=
| Handled_post (request : Request) :
    handled w (snd (receive_transaction request w))
| Handled_get : handled w (snd (get_transactions w))
| Handled_reset : handled w (snd (reset_counters w))
| Handled_health : handled w (snd (health_check w))
| Handled_root : handled w w.

Inductive reachable (clock : nat -> datetime) : World -> Prop :=
| Reach_start : reachable clock (initial_world clock)
| Reach_step (w w' : World) :
    reachable clock w -> handled w w' -> reachable clock w'.

(** The repeat cannot go on at [s]: the text is over or its next character is
    outside the set. *)
Definition stops (cs : charset) (s : str) : bool :=
  match s with
  | [] => true
  | c :: _ => negb (in_set cs c)
  end.

(** An extractor that raises on every call, for the examples. *)
Definition failing_extract (msg : str) : str -> str -> Py str :=
  fun _ _ => raise {| description := msg |}.

(** A clock for the examples: reading [n] is second [n]. *)
Definition epoch : nat -> datetime :=
  fun n => {| timestamp := Z.of_nat n; isoformat := py "1970-01-01T00:00:00" |}.

(** The world with its two globals replaced. *)
Definition with_store (w : World) (counter : Z)
    (storage : list TransactionData) : World :=
  {| wall_clock := wall_clock w; ticks := ticks w;
     transaction_counter := counter; transaction_storage := storage |}.

(** The buffer holds as many records as were counted, up to ten. *)
Definition store_in_step (w : World) : Prop :=
  (0 <= transaction_counter w)%Z
  /\ Z.of_nat (length (transaction_storage w))
     = Z.min (transaction_counter w) 10.

(** Fifteen records that differ by their stamps. *)
Definition fifteen_records : list TransactionData :=
  List.map (fun n => {| authorizer_usrnbr := Some UNKNOWN;
                        creat_usrnbr := Some UNKNOWN;
                        creat_time := Some UNKNOWN;
                        data := Some UNKNOWN;
                        usrname := Some UNKNOWN;
                        received_at := epoch n |}) (seq 0 15).

(** ** Runs of requests *)

(** The record the [try] block builds from a text, stamped [stamp]. *)
Definition parsed_record (raw : str) (stamp : datetime) : TransactionData :=
  {| authorizer_usrnbr :=
       Some (_extract_string_value raw (py "authorizer_usrnbr"));
     creat_usrnbr := Some (_extract_string_value raw (py "creat_usrnbr"));
     creat_time := Some (_extract_string_value raw (py "creat_time"));
     data := Some (_extract_string_value raw (py "data"));
     usrname := Some (_extract_string_value raw (py "usrname"));
     received_at := stamp |}.

(** The records of a list of texts parsed one after the other, the first at
    reading [k] of the clock, each taking one reading. *)
Fixpoint parsed_records (clock : nat -> datetime) (k : nat)
    (raws : list str) : list TransactionData :=
  match raws with
  | [] => []
  | raw :: raws' => parsed_record raw (clock k) :: parsed_records clock (S k) raws'
  end.

(** The texts of the requests whose body decodes, in their order. *)
Definition accepted_texts (requests : list Request) : list str :=
  flat_map (fun r => match body_decode r with
                     | Returns raw => [raw]
                     | Raises _ => []
                     end) requests.

(** The POST handler run on each request of a list, first to last; a request
    it rejects leaves the process where it was. *)
Fixpoint post_each (requests : list Request) (w : World) : World :=
  match requests with
  | [] => w
  | r :: rs => post_each rs (snd (receive_transaction r w))
  end.

(** [a] starts with [p]. *)
Definition starts_with (p a : str) : Prop := exists rest, a = p ++ rest.

(** A request whose body decodes to [raw], and one whose body does not
    decode. *)
Definition request_of (raw : str) : Request :=
  {| body_decode := Returns raw |}.

Definition bad_request (msg : str) : Request :=
  {| body_decode := Raises {| description := msg |} |}.

(** Twelve requests, the third and the seventh with a body that does not
    decode. *)
Definition twelve_requests : list Request :=
  List.map (fun n => if Nat.eqb n 2 || Nat.eqb n 6
                     then bad_request (py "invalid start byte")
                     else request_of (py "{'usrname': 'alice'}"))
    (seq 0 12).

(** * Properties *)

(** ** The greedy repeat *)

Section RepeatFacts.
Variable cs : charset.
Variable k : str -> str -> option str.

Lemma repeat_max_sound : forall s min taken g,
  repeat_max cs k min taken s = Some g ->
  exists w rest, s = w ++ rest /\ forallb (in_set cs) w = true
                 /\ min <= length w /\ k (taken ++ w) rest = Some g.
Proof.
  induction s as [|c s IH]; intros min taken g H; simpl in H.
  - destruct min; [|discriminate].
    exists [], []. repeat split; simpl; rewrite ?app_nil_r; auto.
  - destruct (in_set cs c) eqn:Hc.
    + destruct (repeat_max cs k (Nat.pred min) (taken ++ [c]) s) eqn:Hr.
      * inversion H; subst. apply IH in Hr.
        destruct Hr as (w & rest & -> & Hw & Hmin & Hk).
        exists (c :: w), rest. simpl. rewrite Hc, Hw.
        rewrite <- app_assoc in Hk. repeat split; auto. lia.
      * destruct min; [|discriminate].
        exists [], (c :: s). repeat split; simpl; rewrite ?app_nil_r; auto.
    + destruct min; [|discriminate].
      exists [], (c :: s). repeat split; simpl; rewrite ?app_nil_r; auto.
Qed.

(** When what follows can only start outside the set, the repeat has one
    way to succeed: take the whole run. *)
Hypothesis k_needs_stop : forall t r, stops cs r = false -> k t r = None.

Lemma repeat_max_run : forall w rest min taken,
  forallb (in_set cs) w = true -> stops cs rest = true ->
  repeat_max cs k min taken (w ++ rest)
  = if Nat.leb min (length w) then k (taken ++ w) rest else None.
Proof.
  induction w as [|c w IH]; intros rest min taken Hw Hs; simpl.
  - rewrite app_nil_r.
    destruct rest as [|x r]; simpl in *.
    + destruct min; reflexivity.
    + apply negb_true_iff in Hs. rewrite Hs. destruct min; reflexivity.
  - simpl in Hw. apply andb_true_iff in Hw. destruct Hw as [Hc Hw].
    rewrite Hc, (IH rest _ _ Hw Hs), <- app_assoc. simpl.
    destruct min as [|min]; simpl.
    + destruct (k (taken ++ c :: w) rest); [reflexivity|].
      apply k_needs_stop. simpl. now rewrite Hc.
    + destruct (Nat.leb min (length w)); [|reflexivity].
      destruct (k (taken ++ c :: w) rest); reflexivity.
Qed.
End RepeatFacts.

(** ** Matching at one position *)

Lemma sre_match_lit_app : forall l p g s,
  sre_match (lit l ++ p) g (l ++ s) = sre_match p g s.
Proof.
  induction l as [|c l IH]; intros p g s; simpl; [reflexivity|].
  now rewrite N.eqb_refl.
Qed.

Lemma sre_match_lit_inv : forall l p g s v,
  sre_match (lit l ++ p) g s = Some v ->
  exists r, s = l ++ r /\ sre_match p g r = Some v.
Proof.
  induction l as [|c l IH]; intros p g s v H; simpl in H.
  - exists s. auto.
  - destruct s as [|x s]; [discriminate|].
    destruct (N.eqb x c) eqn:E; [|discriminate].
    apply N.eqb_eq in E. subst x.
    apply IH in H. destruct H as (r & -> & H). exists r. auto.
Qed.

Lemma literal_needs_stop : forall cs c p g r,
  in_set cs c = false -> stops cs r = false ->
  sre_match (LITERAL c :: p) g r = None.
Proof.
  intros cs c p g [|x r] Hc Hs; simpl in *; [discriminate|].
  destruct (N.eqb x c) eqn:E; [|reflexivity].
  apply N.eqb_eq in E. subst x.
  rewrite Hc in Hs. discriminate.
Qed.

(** A repeat followed by a literal outside its set takes the whole run. *)
Lemma sre_match_repeat_run : forall min cs c p g w rest,
  in_set cs c = false -> forallb (in_set cs) w = true ->
  stops cs rest = true ->
  sre_match (MAX_REPEAT min cs :: LITERAL c :: p) g (w ++ rest)
  = if Nat.leb min (length w) then sre_match (LITERAL c :: p) g rest
    else None.
Proof.
  intros min cs c p g w rest Hc Hw Hs.
  change (sre_match (MAX_REPEAT min cs :: LITERAL c :: p) g (w ++ rest))
    with (repeat_max cs (fun _ r => sre_match (LITERAL c :: p) g r)
            min [] (w ++ rest)).
  rewrite repeat_max_run; auto.
  intros _ r Hr. now apply literal_needs_stop with (cs := cs).
Qed.

Lemma sre_match_group_run : forall min cs c p g w rest,
  in_set cs c = false -> forallb (in_set cs) w = true ->
  stops cs rest = true ->
  sre_match (SUBPATTERN min cs :: LITERAL c :: p) g (w ++ rest)
  = if Nat.leb min (length w) then sre_match (LITERAL c :: p) w rest
    else None.
Proof.
  intros min cs c p g w rest Hc Hw Hs.
  change (sre_match (SUBPATTERN min cs :: LITERAL c :: p) g (w ++ rest))
    with (repeat_max cs (fun t r => sre_match (LITERAL c :: p) t r)
            min [] (w ++ rest)).
  rewrite repeat_max_run; auto.
  intros t r Hr. now apply literal_needs_stop with (cs := cs).
Qed.

Lemma sre_match_literal_inv : forall c p g s v,
  sre_match (LITERAL c :: p) g s = Some v ->
  exists r, s = c :: r /\ sre_match p g r = Some v.
Proof.
  intros c p g s v H. now apply (sre_match_lit_inv [c]) in H.
Qed.

Lemma sre_match_repeat_inv : forall min cs c p g s v,
  sre_match (MAX_REPEAT min cs :: LITERAL c :: p) g s = Some v ->
  exists w r, s = w ++ c :: r /\ forallb (in_set cs) w = true
              /\ min <= length w /\ sre_match p g r = Some v.
Proof.
  intros min cs c p g s v H. simpl in H.
  apply repeat_max_sound in H.
  destruct H as (w & rest & -> & Hw & Hmin & H).
  apply sre_match_literal_inv in H. destruct H as (r & -> & H).
  exists w, r. auto.
Qed.

Lemma sre_match_group_inv : forall min cs c p g s v,
  sre_match (SUBPATTERN min cs :: LITERAL c :: p) g s = Some v ->
  exists w r, s = w ++ c :: r /\ forallb (in_set cs) w = true
              /\ min <= length w /\ sre_match p w r = Some v.
Proof.
  intros min cs c p g s v H. simpl in H.
  apply repeat_max_sound in H.
  destruct H as (w & rest & -> & Hw & Hmin & H).
  apply sre_match_literal_inv in H. destruct H as (r & -> & H).
  exists w, r. auto.
Qed.

(** The patterns with their literals spelled out node by node. *)
Lemma pattern1_nodes : forall f,
  pattern1 f
  = lit (QUOTE :: f ++ [QUOTE])
    ++ MAX_REPEAT 0 CATEGORY_SPACE :: LITERAL COLON
    :: MAX_REPEAT 0 CATEGORY_SPACE :: LITERAL LBRACE
    :: MAX_REPEAT 0 CATEGORY_SPACE :: LITERAL QUOTE
    :: lit (py "string'")
    ++ MAX_REPEAT 0 CATEGORY_SPACE :: LITERAL COLON
    :: MAX_REPEAT 0 CATEGORY_SPACE :: LITERAL QUOTE
    :: SUBPATTERN 1 (NOT_LITERAL QUOTE) :: LITERAL QUOTE
    :: MAX_REPEAT 0 CATEGORY_SPACE :: [LITERAL RBRACE].
Proof. reflexivity. Qed.

Lemma pattern2_nodes : forall f,
  pattern2 f
  = lit (QUOTE :: f ++ [QUOTE])
    ++ MAX_REPEAT 0 CATEGORY_SPACE :: LITERAL COLON
    :: MAX_REPEAT 0 CATEGORY_SPACE :: LITERAL QUOTE
    :: SUBPATTERN 1 (NOT_LITERAL QUOTE) :: [LITERAL QUOTE].
Proof. reflexivity. Qed.

Lemma wrapped_form_text : forall f v w1 w2 w3 w4 w5 w6 post,
  (QUOTE :: f ++ QUOTE :: w1 ++ COLON :: w2 ++ LBRACE :: w3
     ++ py "'string'" ++ w4 ++ COLON :: w5 ++ QUOTE :: v
     ++ QUOTE :: w6 ++ [RBRACE]) ++ post
  = (QUOTE :: f ++ [QUOTE]) ++ w1 ++ COLON :: w2 ++ LBRACE :: w3
     ++ QUOTE :: py "string'" ++ w4 ++ COLON :: w5 ++ QUOTE :: v
     ++ QUOTE :: w6 ++ RBRACE :: post.
Proof.
  intros. change (py "'string'") with (QUOTE :: py "string'").
  simpl. repeat (rewrite <- app_assoc; simpl). reflexivity.
Qed.

Lemma bare_form_text : forall f v w1 w2 post,
  (QUOTE :: f ++ QUOTE :: w1 ++ COLON :: w2 ++ QUOTE :: v ++ [QUOTE]) ++ post
  = (QUOTE :: f ++ [QUOTE]) ++ w1 ++ COLON :: w2 ++ QUOTE :: v
     ++ QUOTE :: post.
Proof.
  intros. simpl. repeat (rewrite <- app_assoc; simpl). reflexivity.
Qed.

Lemma sre_match_literal_step : forall c p g s,
  sre_match (LITERAL c :: p) g (c :: s) = sre_match p g s.
Proof. intros. simpl. now rewrite N.eqb_refl. Qed.

Lemma sre_match_blank_step : forall cs c p g w rest,
  in_set cs c = false -> forallb (in_set cs) w = true ->
  sre_match (MAX_REPEAT 0 cs :: LITERAL c :: p) g (w ++ c :: rest)
  = sre_match p g rest.
Proof.
  intros cs c p g w rest Hc Hw.
  rewrite sre_match_repeat_run; auto.
  - apply sre_match_literal_step.
  - simpl. now rewrite Hc.
Qed.

Lemma sre_match_blank_fail : forall cs c x p g w rest,
  in_set cs c = false -> in_set cs x = false -> x <> c ->
  forallb (in_set cs) w = true ->
  sre_match (MAX_REPEAT 0 cs :: LITERAL c :: p) g (w ++ x :: rest) = None.
Proof.
  intros cs c x p g w rest Hc Hx Hne Hw.
  rewrite sre_match_repeat_run; auto.
  - simpl. apply N.eqb_neq in Hne. now rewrite Hne.
  - simpl. now rewrite Hx.
Qed.

Lemma sre_match_group_step : forall cs c p g w rest,
  in_set cs c = false -> forallb (in_set cs) w = true ->
  sre_match (SUBPATTERN 1 cs :: LITERAL c :: p) g (w ++ c :: rest)
  = match w with
    | [] => None
    | _ :: _ => sre_match p w rest
    end.
Proof.
  intros cs c p g w rest Hc Hw.
  rewrite sre_match_group_run; auto.
  - destruct w; simpl; [reflexivity|]. now rewrite N.eqb_refl.
  - simpl. now rewrite Hc.
Qed.

Ltac run_pattern :=
  repeat first
    [ rewrite sre_match_lit_app
    | rewrite sre_match_literal_step
    | rewrite sre_match_blank_step by (reflexivity || assumption)
    | rewrite sre_match_group_step by (reflexivity || assumption) ].

(** What each pattern does where a field of either shape starts. *)
Lemma pattern1_on_wrapped : forall f v d post,
  wrapped_form f v d ->
  sre_match (pattern1 f) [] (d ++ post)
  = match v with
    | [] => None
    | _ :: _ => Some v
    end.
Proof.
  intros f v d post [w1 w2 w3 w4 w5 w6 H1 H2 H3 H4 H5 H6 Hv].
  rewrite wrapped_form_text, pattern1_nodes.
  unfold blank, quote_free in *.
  run_pattern. destruct v; [reflexivity|].
  run_pattern. reflexivity.
Qed.

Lemma pattern2_on_bare : forall f v d post,
  bare_form f v d ->
  sre_match (pattern2 f) [] (d ++ post)
  = match v with
    | [] => None
    | _ :: _ => Some v
    end.
Proof.
  intros f v d post [w1 w2 H1 H2 Hv].
  rewrite bare_form_text, pattern2_nodes.
  unfold blank, quote_free in *.
  run_pattern. destruct v; [reflexivity|].
  run_pattern. reflexivity.
Qed.

Lemma pattern2_on_wrapped : forall f v d post,
  wrapped_form f v d -> sre_match (pattern2 f) [] (d ++ post) = None.
Proof.
  intros f v d post [w1 w2 w3 w4 w5 w6 H1 H2 H3 H4 H5 H6 Hv].
  rewrite wrapped_form_text, pattern2_nodes.
  unfold blank in *. run_pattern.
  apply sre_match_blank_fail; auto; discriminate.
Qed.

Lemma pattern1_on_bare : forall f v d post,
  bare_form f v d -> sre_match (pattern1 f) [] (d ++ post) = None.
Proof.
  intros f v d post [w1 w2 H1 H2 Hv].
  rewrite bare_form_text, pattern1_nodes.
  unfold blank in *. run_pattern.
  apply sre_match_blank_fail; auto; discriminate.
Qed.

Lemma pattern1_match_inv : forall f s v,
  sre_match (pattern1 f) [] s = Some v ->
  exists d post, s = d ++ post /\ wrapped_form f v d /\ v <> [].
Proof.
  intros f s v H. rewrite pattern1_nodes in H.
  apply sre_match_lit_inv in H. destruct H as (r0 & -> & H).
  apply sre_match_repeat_inv in H. destruct H as (w1 & r1 & -> & H1 & _ & H).
  apply sre_match_repeat_inv in H. destruct H as (w2 & r2 & -> & H2 & _ & H).
  apply sre_match_repeat_inv in H. destruct H as (w3 & r3 & -> & H3 & _ & H).
  apply sre_match_lit_inv in H. destruct H as (r4 & -> & H).
  apply sre_match_repeat_inv in H. destruct H as (w4 & r5 & -> & H4 & _ & H).
  apply sre_match_repeat_inv in H. destruct H as (w5 & r6 & -> & H5 & _ & H).
  apply sre_match_group_inv in H. destruct H as (x & r7 & -> & Hx & Hn & H).
  apply sre_match_repeat_inv in H. destruct H as (w6 & r8 & -> & H6 & _ & H).
  simpl in H. inversion H; subst x.
  eexists; exists r8. split; [|split].
  - symmetry. apply wrapped_form_text.
  - constructor; assumption.
  - intros ->. simpl in Hn. lia.
Qed.

Lemma pattern2_match_inv : forall f s v,
  sre_match (pattern2 f) [] s = Some v ->
  exists d post, s = d ++ post /\ bare_form f v d /\ v <> [].
Proof.
  intros f s v H. rewrite pattern2_nodes in H.
  apply sre_match_lit_inv in H. destruct H as (r0 & -> & H).
  apply sre_match_repeat_inv in H. destruct H as (w1 & r1 & -> & H1 & _ & H).
  apply sre_match_repeat_inv in H. destruct H as (w2 & r2 & -> & H2 & _ & H).
  apply sre_match_group_inv in H. destruct H as (x & r3 & -> & Hx & Hn & H).
  simpl in H. inversion H; subst x.
  eexists; exists r3. split; [|split].
  - symmetry. apply bare_form_text.
  - constructor; assumption.
  - intros ->. simpl in Hn. lia.
Qed.

(** ** Searching *)

Lemma search_from_none : forall p s pos,
  (forall pre rest, s = pre ++ rest -> sre_match p [] rest = None) ->
  search_from p pos s = None.
Proof.
  induction s as [|c s IH]; intros pos H; simpl.
  - now rewrite (H [] []).
  - rewrite (H [] (c :: s)) by reflexivity.
    apply IH. intros pre rest ->. now apply (H (c :: pre)).
Qed.

Lemma search_from_first : forall p pre rest pos v,
  sre_match p [] rest = Some v ->
  (forall pre' rest', pre ++ rest = pre' ++ rest' ->
                      length pre' < length pre ->
                      sre_match p [] rest' = None) ->
  search_from p pos (pre ++ rest)
  = Some {| start := pos + length pre; group1 := v |}.
Proof.
  induction pre as [|c pre IH]; intros rest pos v Hm Hleft.
  - simpl. rewrite Nat.add_0_r.
    destruct rest; simpl; now rewrite Hm.
  - simpl. rewrite (Hleft [] (c :: pre ++ rest)) by (simpl; auto; lia).
    rewrite (IH rest (S pos) v Hm).
    + f_equal. f_equal. lia.
    + intros pre' rest' E L. apply (Hleft (c :: pre')).
      * simpl. now rewrite E.
      * simpl. lia.
Qed.

Lemma search_from_inv : forall p s pos m,
  search_from p pos s = Some m ->
  exists pre rest,
    s = pre ++ rest /\ start m = pos + length pre
    /\ sre_match p [] rest = Some (group1 m)
    /\ (forall pre' rest', s = pre' ++ rest' -> length pre' < length pre ->
                           sre_match p [] rest' = None).
Proof.
  induction s as [|c s IH]; intros pos m H; simpl in H.
  - destruct (sre_match p [] []) eqn:E; [|discriminate].
    inversion H; subst m; simpl.
    exists [], []. repeat split; auto. simpl. intros; lia.
  - destruct (sre_match p [] (c :: s)) eqn:E.
    + inversion H; subst m; simpl.
      exists [], (c :: s). repeat split; auto. simpl. intros; lia.
    + apply IH in H. destruct H as (pre & rest & -> & Hs & Hm & Hleft).
      exists (c :: pre), rest. repeat split; auto.
      * simpl. lia.
      * intros [|c' pre'] rest' E' L; simpl in *.
        -- now subst rest'.
        -- inversion E'; subst. apply (Hleft pre'); auto. lia.
Qed.

Lemma search_from_none_inv : forall p s pos,
  search_from p pos s = None ->
  forall pre rest, s = pre ++ rest -> sre_match p [] rest = None.
Proof.
  induction s as [|c s IH]; intros pos H pre rest E; simpl in H.
  - destruct pre; [|discriminate]. simpl in E. subst rest.
    destruct (sre_match p [] []); [discriminate|reflexivity].
  - destruct (sre_match p [] (c :: s)) eqn:Em; [discriminate|].
    destruct pre as [|c' pre]; simpl in E.
    + now subst rest.
    + inversion E; subst. now apply (IH (S pos) H pre).
Qed.

(** ** Occurrences of a shape and matches of its pattern *)

Section Occurrences.
Variable p : pattern.
Variable form : str -> str -> Prop.

Hypothesis on_form : forall v d post,
  form v d ->
  sre_match p [] (d ++ post) = match v with
                               | [] => None
                               | _ :: _ => Some v
                               end.
Hypothesis match_inv : forall s v,
  sre_match p [] s = Some v ->
  exists d post, s = d ++ post /\ form v d /\ v <> [].

Lemma occurrence_matches : forall raw n v,
  occurs_at form raw n v /\ v <> [] <->
  exists pre rest, raw = pre ++ rest /\ length pre = n
                   /\ sre_match p [] rest = Some v.
Proof.
  intros raw n v. split.
  - intros [(pre & d & post & -> & Hn & Hf) Hv].
    exists pre, (d ++ post). repeat split; auto.
    rewrite (on_form post Hf). destruct v; congruence.
  - intros (pre & rest & -> & Hn & Hm).
    apply match_inv in Hm. destruct Hm as (d & post & -> & Hf & Hv).
    split; auto. exists pre, d, post. auto.
Qed.

Lemma search_first : forall raw n v,
  occurs_at form raw n v /\ v <> [] ->
  (forall m v', occurs_at form raw m v' /\ v' <> [] -> n <= m) ->
  re_search p raw = Some {| start := n; group1 := v |}.
Proof.
  intros raw n v Hat Hleft.
  apply occurrence_matches in Hat.
  destruct Hat as (pre & rest & -> & <- & Hm).
  unfold re_search. rewrite (search_from_first p pre rest 0 Hm); auto.
  intros pre' rest' E L.
  destruct (sre_match p [] rest') as [v'|] eqn:Em; [|reflexivity].
  assert (length pre <= length pre'); [|lia].
  apply (Hleft _ v'). apply occurrence_matches.
  exists pre', rest'. auto.
Qed.

Lemma search_first_inv : forall raw m,
  re_search p raw = Some m ->
  (occurs_at form raw (start m) (group1 m) /\ group1 m <> [])
  /\ forall n v, occurs_at form raw n v /\ v <> [] -> start m <= n.
Proof.
  intros raw m H. apply search_from_inv in H.
  destruct H as (pre & rest & -> & Hs & Hm & Hleft). simpl in Hs.
  split.
  - apply occurrence_matches. exists pre, rest. auto.
  - intros n v Hat. apply occurrence_matches in Hat.
    destruct Hat as (pre' & rest' & E & <- & Hm').
    destruct (Nat.le_gt_cases (start m) (length pre')) as [|L]; auto.
    rewrite (Hleft pre' rest' E) in Hm'; [discriminate|lia].
Qed.

Lemma search_none : forall raw,
  (forall n v, ~ (occurs_at form raw n v /\ v <> [])) ->
  re_search p raw = None.
Proof.
  intros raw H. apply search_from_none. intros pre rest ->.
  destruct (sre_match p [] rest) as [v|] eqn:Em; [|reflexivity].
  exfalso. apply (H (length pre) v). apply occurrence_matches.
  exists pre, rest. auto.
Qed.

Lemma search_none_inv : forall raw,
  re_search p raw = None ->
  forall n v, ~ (occurs_at form raw n v /\ v <> []).
Proof.
  intros raw H n v Hat. apply occurrence_matches in Hat.
  destruct Hat as (pre & rest & E & _ & Hm).
  rewrite (@search_from_none_inv p raw 0 H pre rest E) in Hm.
  discriminate.
Qed.
End Occurrences.

(** ** The extractor on each kind of input *)

Lemma search_first_wrapped : forall f raw n v,
  first_wrapped_at f raw n v ->
  re_search (pattern1 f) raw = Some {| start := n; group1 := v |}.
Proof.
  intros f raw n v [Hat Hleft].
  apply (@search_first (pattern1 f) (wrapped_form f)); auto.
  - intros; now apply pattern1_on_wrapped.
  - apply pattern1_match_inv.
Qed.

Lemma search_first_bare : forall f raw n v,
  first_bare_at f raw n v ->
  re_search (pattern2 f) raw = Some {| start := n; group1 := v |}.
Proof.
  intros f raw n v [Hat Hleft].
  apply (@search_first (pattern2 f) (bare_form f)); auto.
  - intros; now apply pattern2_on_bare.
  - apply pattern2_match_inv.
Qed.

Lemma search_wrapped_inv : forall f raw m,
  re_search (pattern1 f) raw = Some m ->
  first_wrapped_at f raw (start m) (group1 m).
Proof.
  intros f raw m H.
  apply (@search_first_inv (pattern1 f) (wrapped_form f)); auto.
  - intros; now apply pattern1_on_wrapped.
  - apply pattern1_match_inv.
Qed.

Lemma search_bare_inv : forall f raw m,
  re_search (pattern2 f) raw = Some m ->
  first_bare_at f raw (start m) (group1 m).
Proof.
  intros f raw m H.
  apply (@search_first_inv (pattern2 f) (bare_form f)); auto.
  - intros; now apply pattern2_on_bare.
  - apply pattern2_match_inv.
Qed.

Lemma search_no_wrapped : forall f raw,
  no_wrapped f raw <-> re_search (pattern1 f) raw = None.
Proof.
  intros f raw. split.
  - apply (@search_none (pattern1 f) (wrapped_form f)).
    + intros; now apply pattern1_on_wrapped.
    + apply pattern1_match_inv.
  - intros H n v.
    apply (@search_none_inv (pattern1 f) (wrapped_form f)); auto.
    + intros; now apply pattern1_on_wrapped.
    + apply pattern1_match_inv.
Qed.

Lemma search_no_bare : forall f raw,
  no_bare f raw <-> re_search (pattern2 f) raw = None.
Proof.
  intros f raw. split.
  - apply (@search_none (pattern2 f) (bare_form f)).
    + intros; now apply pattern2_on_bare.
    + apply pattern2_match_inv.
  - intros H n v.
    apply (@search_none_inv (pattern2 f) (bare_form f)); auto.
    + intros; now apply pattern2_on_bare.
    + apply pattern2_match_inv.
Qed.

Lemma extract_first_wrapped : forall f raw n v,
  first_wrapped_at f raw n v -> _extract_string_value raw f = v.
Proof.
  intros f raw n v H. unfold _extract_string_value.
  now rewrite (search_first_wrapped H).
Qed.

Lemma extract_first_bare : forall f raw n v,
  no_wrapped f raw -> first_bare_at f raw n v ->
  _extract_string_value raw f = v.
Proof.
  intros f raw n v Hw H. unfold _extract_string_value.
  apply search_no_wrapped in Hw. rewrite Hw.
  now rewrite (search_first_bare H).
Qed.

Lemma extract_unknown : forall f raw,
  no_wrapped f raw -> no_bare f raw -> _extract_string_value raw f = UNKNOWN.
Proof.
  intros f raw Hw Hb. unfold _extract_string_value.
  apply search_no_wrapped in Hw. apply search_no_bare in Hb.
  now rewrite Hw, Hb.
Qed.

(** The converses, for inputs given in full: what a search returned says
    where the first occurrence is. *)
Lemma first_wrapped_by_search : forall f raw n v,
  re_search (pattern1 f) raw = Some {| start := n; group1 := v |} ->
  first_wrapped_at f raw n v.
Proof. intros f raw n v H. exact (search_wrapped_inv _ _ H). Qed.

Lemma first_bare_by_search : forall f raw n v,
  re_search (pattern2 f) raw = Some {| start := n; group1 := v |} ->
  first_bare_at f raw n v.
Proof. intros f raw n v H. exact (search_bare_inv _ _ H). Qed.

(** ** The parser *)

Lemma parse_avro_string_returns : forall raw w,
  parse_avro_string raw w
  = (Returns
       {| authorizer_usrnbr :=
            Some (_extract_string_value raw (py "authorizer_usrnbr"));
          creat_usrnbr := Some (_extract_string_value raw (py "creat_usrnbr"));
          creat_time := Some (_extract_string_value raw (py "creat_time"));
          data := Some (_extract_string_value raw (py "data"));
          usrname := Some (_extract_string_value raw (py "usrname"));
          received_at := wall_clock w (ticks w) |},
     tick w).
Proof. reflexivity. Qed.

Lemma field_value_parsed : forall f raw w,
  In f field_names ->
  exists t w', parse_avro_string raw w = (Returns t, w')
               /\ field_value f t = Some (_extract_string_value raw f).
Proof.
  intros f raw w Hin. rewrite parse_avro_string_returns.
  do 2 eexists. split; [reflexivity|].
  simpl in Hin.
  destruct Hin as [<-|[<-|[<-|[<-|[<-|[]]]]]]; reflexivity.
Qed.

Lemma fallback_returns : forall raw err w,
  _create_fallback_transaction raw err w
  = (Returns
       {| authorizer_usrnbr := Some (py "PARSE_ERROR");
          creat_usrnbr := Some (py "PARSE_ERROR");
          creat_time := Some (isoformat (wall_clock w (ticks w)));
          data := Some (firstn 200 raw
                        ++ (if Nat.ltb 200 (length raw) then py "..." else []));
          usrname := Some (py "ERROR: " ++ firstn 50 err);
          received_at := wall_clock w (S (ticks w)) |},
     tick (tick w)).
Proof. reflexivity. Qed.

Lemma try_block_populated : forall extract raw w t w',
  parse_try_block extract raw w = (Returns t, w') -> fully_populated t.
Proof.
  intros extract raw w t w' H. unfold parse_try_block, bind in H.
  repeat match type of H with
         | context [extract ?a ?b ?c] =>
             destruct (extract a b c) as [[?|?] ?]; [|discriminate]
         end.
  unfold TransactionData_init, bind, datetime_now, ret in H. simpl in H.
  inversion H; subst. unfold fully_populated; simpl.
  repeat split; discriminate.
Qed.

(** C1. Parsing is total: on every text, and even with an extractor that
    raises, [parse_avro_string] returns a record with every field filled and
    raises nothing; when the [try] block returns, its record is the result,
    and when it raises, the result is the fallback record built from the text
    and from the exception. *)
Theorem parsing_is_total :
  (forall raw w, exists t w',
      parse_avro_string raw w = (Returns t, w') /\ fully_populated t)
  /\ (forall extract raw w, exists t w',
         parse_avro_string_with extract raw w = (Returns t, w')
         /\ fully_populated t
         /\ match parse_try_block extract raw w with
            | (Returns t0, w0) => (t, w') = (t0, w0)
            | (Raises e, w1) =>
                _create_fallback_transaction raw (description e) w1
                = (Returns t, w')
            end).
Proof.
  assert (G : forall extract raw w, exists t w',
             parse_avro_string_with extract raw w = (Returns t, w')
             /\ fully_populated t
             /\ match parse_try_block extract raw w with
                | (Returns t0, w0) => (t, w') = (t0, w0)
                | (Raises e, w1) =>
                    _create_fallback_transaction raw (description e) w1
                    = (Returns t, w')
                end).
  { intros extract raw w. unfold parse_avro_string_with, try_except.
    destruct (parse_try_block extract raw w) as [[t|e] w1] eqn:E.
    - exists t, w1. repeat split; auto.
      all: try (eapply try_block_populated; exact E).
    - rewrite fallback_returns. do 2 eexists.
      split; [reflexivity|]. split; [|reflexivity].
      unfold fully_populated; simpl. repeat split; discriminate. }
  split; [|exact G].
  intros raw w. destruct (G (fun a f => ret (_extract_string_value a f)) raw w)
    as (t & w' & H & Hp & _).
  exists t, w'. auto.
Qed.

(** ** Occurrences in a given text *)

Lemma wrapped_at_matches : forall f raw n v,
  wrapped_at f raw n v <->
  exists pre rest, raw = pre ++ rest /\ length pre = n
                   /\ sre_match (pattern1 f) [] rest = Some v.
Proof.
  intros f raw n v.
  apply (@occurrence_matches (pattern1 f) (wrapped_form f)).
  - intros; now apply pattern1_on_wrapped.
  - apply pattern1_match_inv.
Qed.

Lemma bare_at_matches : forall f raw n v,
  bare_at f raw n v <->
  exists pre rest, raw = pre ++ rest /\ length pre = n
                   /\ sre_match (pattern2 f) [] rest = Some v.
Proof.
  intros f raw n v.
  apply (@occurrence_matches (pattern2 f) (bare_form f)).
  - intros; now apply pattern2_on_bare.
  - apply pattern2_match_inv.
Qed.

Lemma wrapped_at_by_match : forall f raw n v,
  n <= length raw ->
  sre_match (pattern1 f) [] (skipn n raw) = Some v ->
  wrapped_at f raw n v.
Proof.
  intros f raw n v Hn Hm. apply wrapped_at_matches.
  exists (firstn n raw), (skipn n raw).
  rewrite firstn_skipn, length_firstn. repeat split; auto. lia.
Qed.

Lemma bare_at_by_match : forall f raw n v,
  n <= length raw ->
  sre_match (pattern2 f) [] (skipn n raw) = Some v ->
  bare_at f raw n v.
Proof.
  intros f raw n v Hn Hm. apply bare_at_matches.
  exists (firstn n raw), (skipn n raw).
  rewrite firstn_skipn, length_firstn. repeat split; auto. lia.
Qed.

Lemma same_offset_same_rest : forall (pre pre' a b : str),
  pre ++ a = pre' ++ b -> length pre = length pre' -> a = b.
Proof.
  induction pre as [|c pre IH]; intros [|c' pre'] a b E L;
    simpl in *; try discriminate; auto.
  inversion E; subst. apply (IH pre'); auto.
Qed.

(** Where a field with an empty value stands, neither pattern matches. *)
Lemma empty_value_blocks : forall f raw n,
  occurs_at (bare_form f) raw n [] \/ occurs_at (wrapped_form f) raw n [] ->
  forall v, ~ wrapped_at f raw n v /\ ~ bare_at f raw n v.
Proof.
  intros f raw n Hempty v.
  assert (G : forall rest pre, raw = pre ++ rest -> length pre = n ->
                sre_match (pattern1 f) [] rest = None
                /\ sre_match (pattern2 f) [] rest = None).
  { intros rest pre E L.
    destruct Hempty as [(p0 & d & post & E0 & L0 & Hf)
                       |(p0 & d & post & E0 & L0 & Hf)].
    - assert (rest = d ++ post) as ->.
      { apply (@same_offset_same_rest pre p0); congruence. }
      split.
      + apply (pattern1_on_bare _ Hf).
      + apply (pattern2_on_bare _ Hf).
    - assert (rest = d ++ post) as ->.
      { apply (@same_offset_same_rest pre p0); congruence. }
      split.
      + apply (pattern1_on_wrapped _ Hf).
      + apply (pattern2_on_wrapped _ Hf). }
  split; intros H.
  - apply wrapped_at_matches in H. destruct H as (pre & rest & E & L & Hm).
    destruct (G rest pre E L) as [G1 _]. congruence.
  - apply bare_at_matches in H. destruct H as (pre & rest & E & L & Hm).
    destruct (G rest pre E L) as [_ G2]. congruence.
Qed.

(** ** The claims on the extractor *)

(** C2 (as amended). When none of the five names occurs in either shape, the
    parser returns the record whose five texts are all the sentinel UNKNOWN,
    [creat_time] and [data] included, stamped with the reading of the
    clock. *)
Theorem missing_fields_are_unknown : forall raw w,
  (forall f, In f field_names -> no_wrapped f raw /\ no_bare f raw) ->
  parse_avro_string raw w
  = (Returns {| authorizer_usrnbr := Some UNKNOWN;
                creat_usrnbr := Some UNKNOWN;
                creat_time := Some UNKNOWN;
                data := Some UNKNOWN;
                usrname := Some UNKNOWN;
                received_at := wall_clock w (ticks w) |},
     tick w).
Proof.
  intros raw w H. rewrite parse_avro_string_returns.
  assert (G : forall f, In f field_names ->
                        _extract_string_value raw f = UNKNOWN).
  { intros f Hin. destruct (H f Hin). now apply extract_unknown. }
  rewrite !G; auto; simpl; tauto.
Qed.

Lemma nothing_in_braces : forall f,
  In f field_names -> no_wrapped f (py "{}") /\ no_bare f (py "{}").
Proof.
  intros f Hin. simpl in Hin.
  destruct Hin as [<-|[<-|[<-|[<-|[<-|[]]]]]];
    (split; [apply search_no_wrapped | apply search_no_bare]);
    vm_compute; reflexivity.
Qed.

Lemma missing_fields_are_unknown_witness :
  (forall f, In f field_names -> no_wrapped f (py "{}") /\ no_bare f (py "{}"))
  /\ parse_avro_string (py "{}") (initial_world epoch)
     = (Returns {| authorizer_usrnbr := Some UNKNOWN;
                   creat_usrnbr := Some UNKNOWN;
                   creat_time := Some UNKNOWN;
                   data := Some UNKNOWN;
                   usrname := Some UNKNOWN;
                   received_at := epoch 0 |},
        tick (initial_world epoch)).
Proof.
  split; [exact nothing_in_braces|].
  exact (@missing_fields_are_unknown (py "{}") (initial_world epoch)
           nothing_in_braces).
Defined.

(** C2, as stated, fails on the text of two braces: no name occurs in it, and
    [creat_time] and [data] come out as UNKNOWN, not as the empty text. *)
Lemma missing_fields_counterexample :
  (forall f, In f field_names -> no_wrapped f (py "{}") /\ no_bare f (py "{}"))
  /\ exists t w',
       parse_avro_string (py "{}") (initial_world epoch) = (Returns t, w')
       /\ creat_time t = Some (py "UNKNOWN") /\ creat_time t <> Some []
       /\ data t = Some (py "UNKNOWN") /\ data t <> Some [].
Proof.
  split; [exact nothing_in_braces|].
  do 2 eexists. split; [reflexivity|].
  simpl. repeat split; (reflexivity || discriminate).
Qed.

(** C3 (as amended). For a name of word characters, when the first union
    form of the name in the text carries the value [v] (of one character at
    least, since an empty value is no match), the extractor returns [v]; and
    when the name is one of the five of the parser, the record it returns has
    [v] in the field of that name. *)
Theorem wrapped_form_extraction : forall f raw n v,
  is_word_name f = true ->
  first_wrapped_at f raw n v ->
  _extract_string_value raw f = v
  /\ (In f field_names ->
      forall w, exists t w', parse_avro_string raw w = (Returns t, w')
                             /\ field_value f t = Some v).
Proof.
  intros f raw n v _ H.
  pose proof (extract_first_wrapped H) as E. split; [exact E|].
  intros Hin w. destruct (field_value_parsed raw w Hin) as (t & w' & P & F).
  exists t, w'. rewrite <- E. auto.
Qed.

Lemma wrapped_form_extraction_witness :
  is_word_name (py "usrname") = true
  /\ first_wrapped_at (py "usrname")
       (py "{'usrname': {'string': 'alice'}, 'data': 'x'}") 1 (py "alice")
  /\ _extract_string_value
       (py "{'usrname': {'string': 'alice'}, 'data': 'x'}") (py "usrname")
     = py "alice"
  /\ (In (py "usrname") field_names ->
      forall w, exists t w',
        parse_avro_string
          (py "{'usrname': {'string': 'alice'}, 'data': 'x'}") w
        = (Returns t, w')
        /\ field_value (py "usrname") t = Some (py "alice")).
Proof.
  assert (H : first_wrapped_at (py "usrname")
                (py "{'usrname': {'string': 'alice'}, 'data': 'x'}") 1
                (py "alice")).
  { apply first_wrapped_by_search. vm_compute. reflexivity. }
  split; [reflexivity|]. split; [exact H|].
  exact (@wrapped_form_extraction (py "usrname") _ 1 (py "alice")
           eq_refl H).
Defined.

(** C3, as stated, fails twice: a later union form does not give its value
    when an earlier one stands in the text, and the parser does not look for
    the key [username], its key being [usrname]. *)
Lemma wrapped_form_counterexample :
  (wrapped_at (py "f") (py "'f': {'string': 'a'} 'f': {'string': 'b'}") 21
     (py "b")
   /\ _extract_string_value
        (py "'f': {'string': 'a'} 'f': {'string': 'b'}") (py "f") = py "a"
   /\ py "a" <> py "b")
  /\ (wrapped_at (py "username") (py "'username': {'string': 'alice'}") 0
        (py "alice")
      /\ exists t w',
           parse_avro_string (py "'username': {'string': 'alice'}")
             (initial_world epoch) = (Returns t, w')
           /\ usrname t = Some (py "UNKNOWN")
           /\ usrname t <> Some (py "alice")).
Proof.
  split; [split; [|split]|split].
  - apply wrapped_at_by_match; [vm_compute; lia|vm_compute; reflexivity].
  - vm_compute. reflexivity.
  - discriminate.
  - apply wrapped_at_by_match; [vm_compute; lia|vm_compute; reflexivity].
  - do 2 eexists. split; [reflexivity|].
    split; [vm_compute; reflexivity|vm_compute; discriminate].
Qed.

(** C4 (as amended). For a name of word characters, when the text holds no
    union form of the name with a value and the first direct form of the name
    carries the value [v] (of one character at least), the extractor returns
    [v]; and when the name is one of the five of the parser, the record it
    returns has [v] in the field of that name. *)
Theorem bare_form_extraction : forall f raw n v,
  is_word_name f = true ->
  no_wrapped f raw ->
  first_bare_at f raw n v ->
  _extract_string_value raw f = v
  /\ (In f field_names ->
      forall w, exists t w', parse_avro_string raw w = (Returns t, w')
                             /\ field_value f t = Some v).
Proof.
  intros f raw n v _ Hw H.
  pose proof (extract_first_bare Hw H) as E. split; [exact E|].
  intros Hin w. destruct (field_value_parsed raw w Hin) as (t & w' & P & F).
  exists t, w'. rewrite <- E. auto.
Qed.

Lemma bare_form_extraction_witness :
  is_word_name (py "usrname") = true
  /\ no_wrapped (py "usrname") (py "'usrname': 'alice'")
  /\ first_bare_at (py "usrname") (py "'usrname': 'alice'") 0 (py "alice")
  /\ _extract_string_value (py "'usrname': 'alice'") (py "usrname")
     = py "alice"
  /\ (In (py "usrname") field_names ->
      forall w, exists t w',
        parse_avro_string (py "'usrname': 'alice'") w = (Returns t, w')
        /\ field_value (py "usrname") t = Some (py "alice")).
Proof.
  assert (Hw : no_wrapped (py "usrname") (py "'usrname': 'alice'")).
  { apply search_no_wrapped. vm_compute. reflexivity. }
  assert (H : first_bare_at (py "usrname") (py "'usrname': 'alice'") 0
                (py "alice")).
  { apply first_bare_by_search. vm_compute. reflexivity. }
  split; [reflexivity|]. split; [exact Hw|]. split; [exact H|].
  exact (@bare_form_extraction (py "usrname") _ 0 (py "alice")
           eq_refl Hw H).
Defined.

(** C4, as stated, fails twice: a later direct form does not give its value
    when an earlier one stands in the text, and the parser does not look for
    the key [username], its key being [usrname]. *)
Lemma bare_form_counterexample :
  (no_wrapped (py "f") (py "'f': 'a' 'f': 'b'")
   /\ bare_at (py "f") (py "'f': 'a' 'f': 'b'") 9 (py "b")
   /\ _extract_string_value (py "'f': 'a' 'f': 'b'") (py "f") = py "a"
   /\ py "a" <> py "b")
  /\ (no_wrapped (py "username") (py "'username': 'alice'")
      /\ bare_at (py "username") (py "'username': 'alice'") 0 (py "alice")
      /\ exists t w',
           parse_avro_string (py "'username': 'alice'") (initial_world epoch)
           = (Returns t, w')
           /\ usrname t = Some (py "UNKNOWN")
           /\ usrname t <> Some (py "alice")).
Proof.
  split; [split; [|split; [|split]]|split; [|split]].
  - apply search_no_wrapped. vm_compute. reflexivity.
  - apply bare_at_by_match; [vm_compute; lia|vm_compute; reflexivity].
  - vm_compute. reflexivity.
  - discriminate.
  - apply search_no_wrapped. vm_compute. reflexivity.
  - apply bare_at_by_match; [vm_compute; lia|vm_compute; reflexivity].
  - do 2 eexists. split; [reflexivity|].
    split; [vm_compute; reflexivity|vm_compute; discriminate].
Qed.





(** The extractor on a few texts: blanks around colons and braces, an empty
    union value, a name in another case, a value cut at its first quotation
    mark. *)
Example extract_with_blanks :
  _extract_string_value (py "{'data'  :  {  'string'  :  'x y'  }}")
    (py "data") = py "x y".
Proof. vm_compute. reflexivity. Qed.

Example extract_empty_union_value :
  _extract_string_value (py "{'usrname': {'string': ''}}") (py "usrname")
  = py "UNKNOWN".
Proof. vm_compute. reflexivity. Qed.

Example extract_is_case_sensitive :
  _extract_string_value (py "{'Usrname': 'alice'}") (py "usrname")
  = py "UNKNOWN".
Proof. vm_compute. reflexivity. Qed.

Example extract_stops_at_quote :
  _extract_string_value (py "{'data': 'say 'hi' now'}") (py "data")
  = py "say ".
Proof. vm_compute. reflexivity. Qed.

(** C10. For a name of word characters, when the name stands at some offset
    with an empty value, in the direct or in the union form, and no
    occurrence with a value stands at any other offset, the extractor returns
    the sentinel UNKNOWN, which is not the empty text. *)
Theorem empty_value_is_unknown : forall f raw n,
  is_word_name f = true ->
  occurs_at (bare_form f) raw n [] \/ occurs_at (wrapped_form f) raw n [] ->
  (forall m v, m <> n -> ~ wrapped_at f raw m v /\ ~ bare_at f raw m v) ->
  _extract_string_value raw f = UNKNOWN /\ UNKNOWN <> [].
Proof.
  intros f raw n _ Hempty Hother. split; [|discriminate].
  apply extract_unknown.
  - intros m v. destruct (Nat.eq_dec m n) as [->|Hne].
    + apply (empty_value_blocks Hempty).
    + apply (Hother m v Hne).
  - intros m v. destruct (Nat.eq_dec m n) as [->|Hne].
    + apply (empty_value_blocks Hempty).
    + apply (Hother m v Hne).
Qed.

Lemma empty_value_is_unknown_witness :
  is_word_name (py "usrname") = true
  /\ (occurs_at (bare_form (py "usrname")) (py "{'usrname': ''}") 1 []
      \/ occurs_at (wrapped_form (py "usrname")) (py "{'usrname': ''}") 1 [])
  /\ (forall m v, m <> 1 ->
        ~ wrapped_at (py "usrname") (py "{'usrname': ''}") m v
        /\ ~ bare_at (py "usrname") (py "{'usrname': ''}") m v)
  /\ _extract_string_value (py "{'usrname': ''}") (py "usrname") = UNKNOWN
  /\ UNKNOWN <> [].
Proof.
  assert (He : occurs_at (bare_form (py "usrname")) (py "{'usrname': ''}") 1 []
               \/ occurs_at (wrapped_form (py "usrname"))
                    (py "{'usrname': ''}") 1 []).
  { left. exists (py "{"), (py "'usrname': ''"), (py "}").
    split; [reflexivity|]. split; [reflexivity|].
    exact (@Bare_form (py "usrname") [] [] (py " ") eq_refl eq_refl eq_refl). }
  assert (Ho : forall m v, m <> 1 ->
             ~ wrapped_at (py "usrname") (py "{'usrname': ''}") m v
             /\ ~ bare_at (py "usrname") (py "{'usrname': ''}") m v).
  { intros m v _. split.
    - apply search_no_wrapped. vm_compute. reflexivity.
    - apply search_no_bare. vm_compute. reflexivity. }
  split; [reflexivity|]. split; [exact He|]. split; [exact Ho|].
  exact (@empty_value_is_unknown (py "usrname") _ 1 eq_refl He Ho).
Defined.

(** ** The fallback record *)

Lemma firstn_of_truncated : forall (raw : str),
  200 < length raw ->
  length (firstn 200 raw ++ py "...") = 203
  /\ firstn 200 (firstn 200 raw ++ py "...") = firstn 200 raw
  /\ skipn 200 (firstn 200 raw ++ py "...") = py "...".
Proof.
  intros raw H.
  assert (L : length (firstn 200 raw) = 200)
    by (rewrite length_firstn; lia).
  split; [|split].
  - rewrite length_app, L. reflexivity.
  - rewrite firstn_app, L, Nat.sub_diag, firstn_firstn.
    change (firstn 0 (py "...")) with (@nil char).
    now rewrite app_nil_r.
  - rewrite skipn_app, L, Nat.sub_diag.
    rewrite <- L at 1. now rewrite skipn_all.
Qed.

(** C6. Whenever the [try] block raises, the parser returns the fallback
    record, and its [data] is the first 200 characters of the text, followed
    by three dots exactly when the text is longer than 200: a text of 300
    characters gives 203, its first 200 and the dots; a text of 200
    characters, or any shorter one, is given back as it is. *)
Theorem fallback_payload_truncation : forall extract raw w e w1,
  parse_try_block extract raw w = (Raises e, w1) ->
  exists t w' payload,
    parse_avro_string_with extract raw w = (Returns t, w')
    /\ (Returns t, w') = _create_fallback_transaction raw (description e) w1
    /\ data t = Some payload
    /\ payload = firstn 200 raw
                 ++ (if Nat.ltb 200 (length raw) then py "..." else [])
    /\ (200 < length raw ->
        length payload = 203 /\ firstn 200 payload = firstn 200 raw
        /\ skipn 200 payload = py "...")
    /\ (length raw <= 200 -> payload = raw)
    /\ (length raw = 300 -> length payload = 203)
    /\ (length raw = 200 -> length payload = 200).
Proof.
  intros extract raw w e w1 H.
  unfold parse_avro_string_with, try_except. rewrite H, fallback_returns.
  do 3 eexists. split; [reflexivity|]. split; [reflexivity|].
  split; [reflexivity|]. split; [reflexivity|].
  assert (Long : 200 < length raw -> Nat.ltb 200 (length raw) = true)
    by (intros; now apply Nat.ltb_lt).
  assert (Short : length raw <= 200 -> Nat.ltb 200 (length raw) = false)
    by (intros; now apply Nat.ltb_ge).
  split; [|split; [|split]]; intros L.
  - rewrite Long by lia. now apply firstn_of_truncated.
  - rewrite Short by lia. rewrite app_nil_r. now apply firstn_all2.
  - rewrite Long by lia. apply firstn_of_truncated. lia.
  - rewrite Short by lia. rewrite app_nil_r, firstn_all2; lia.
Qed.

Lemma fallback_payload_truncation_witness :
  parse_try_block (failing_extract (py "boom")) (repeat 120%N 300)
    (initial_world epoch)
  = (Raises {| description := py "boom" |}, initial_world epoch)
  /\ exists t w' payload,
       parse_avro_string_with (failing_extract (py "boom")) (repeat 120%N 300)
         (initial_world epoch) = (Returns t, w')
       /\ (Returns t, w')
          = _create_fallback_transaction (repeat 120%N 300)
              (description {| description := py "boom" |})
              (initial_world epoch)
       /\ data t = Some payload
       /\ payload = firstn 200 (repeat 120%N 300)
                    ++ (if Nat.ltb 200 (length (repeat 120%N 300))
                        then py "..." else [])
       /\ (200 < length (repeat 120%N 300) ->
           length payload = 203
           /\ firstn 200 payload = firstn 200 (repeat 120%N 300)
           /\ skipn 200 payload = py "...")
       /\ (length (repeat 120%N 300) <= 200 -> payload = repeat 120%N 300)
       /\ (length (repeat 120%N 300) = 300 -> length payload = 203)
       /\ (length (repeat 120%N 300) = 200 -> length payload = 200).
Proof.
  split; [reflexivity|].
  exact (@fallback_payload_truncation (failing_extract (py "boom"))
           (repeat 120%N 300) (initial_world epoch)
           {| description := py "boom" |} (initial_world epoch) eq_refl).
Defined.

(** ** The history store *)

Lemma store_transaction_returns : forall t w,
  store_transaction t w
  = (Returns tt,
     with_store w (transaction_counter w + 1)
       (if Nat.ltb 10 (length (transaction_storage w ++ [t]))
        then last_n 10 (transaction_storage w ++ [t])
        else transaction_storage w ++ [t])).
Proof.
  intros t w. unfold store_transaction, bind, get_transaction_storage,
    set_transaction_storage, get_transaction_counter,
    set_transaction_counter, ret, with_store. simpl.
  destruct (Nat.ltb 10 (length (transaction_storage w ++ [t])));
    reflexivity.
Qed.

Lemma last_n_short : forall (A : Type) n (l : list A),
  length l <= n -> last_n n l = l.
Proof.
  intros A n l H. unfold last_n.
  replace (length l - n) with 0 by lia. reflexivity.
Qed.

Lemma last_n_app : forall (A : Type) n (a b : list A),
  n <= length b -> last_n n (a ++ b) = last_n n b.
Proof.
  intros A n a b H. unfold last_n.
  rewrite skipn_app, length_app.
  rewrite skipn_all2 by lia. simpl. f_equal. lia.
Qed.

Lemma last_n_length : forall (A : Type) n (l : list A),
  n <= length l -> length (last_n n l) = n.
Proof.
  intros A n l H. unfold last_n. rewrite length_skipn. lia.
Qed.

(** Keeping the last ten after each append keeps the last ten of all. *)
Lemma trim_then_append : forall (s l : list TransactionData) t,
  last_n 10 ((if Nat.ltb 10 (length (s ++ [t]))
              then last_n 10 (s ++ [t]) else s ++ [t]) ++ l)
  = last_n 10 (s ++ t :: l).
Proof.
  intros s l t.
  replace (s ++ t :: l) with ((s ++ [t]) ++ l)
    by (rewrite <- app_assoc; reflexivity).
  generalize (s ++ [t]). intros x.
  destruct (Nat.ltb 10 (length x)) eqn:E; [|reflexivity].
  apply Nat.ltb_lt in E.
  assert (X : firstn (length x - 10) x ++ last_n 10 x = x)
    by (unfold last_n; apply firstn_skipn).
  symmetry.
  transitivity (last_n 10 ((firstn (length x - 10) x ++ last_n 10 x) ++ l)).
  - now rewrite X.
  - rewrite <- app_assoc. apply last_n_app.
    rewrite length_app, last_n_length; lia.
Qed.

Lemma store_each_returns : forall l w,
  length (transaction_storage w) <= 10 ->
  store_each l w
  = (Returns tt,
     with_store w (transaction_counter w + Z.of_nat (length l))
       (last_n 10 (transaction_storage w ++ l))).
Proof.
  induction l as [|t l IH]; intros w H.
  - simpl. unfold ret, with_store. rewrite app_nil_r, last_n_short by lia.
    rewrite Z.add_0_r. destruct w; reflexivity.
  - simpl store_each. unfold bind at 1. rewrite store_transaction_returns.
    change (length (t :: l)) with (S (length l)). rewrite Nat2Z.inj_succ.
    rewrite IH.
    + unfold with_store;
        cbn [wall_clock ticks transaction_counter transaction_storage].
      rewrite trim_then_append. do 2 f_equal. lia.
    + unfold with_store; simpl.
      destruct (Nat.ltb 10 (length (transaction_storage w ++ [t]))) eqn:E.
      * apply Nat.ltb_lt in E. rewrite last_n_length; lia.
      * apply Nat.ltb_ge in E. exact E.
Qed.

(** The POST handler, on a body that decodes, parses it and runs the store
    step on the record; on a body that does not, it leaves the globals as
    they were and raises the 400. *)
Lemma receive_transaction_stores : forall request raw w,
  body_decode request = Returns raw ->
  exists t ack w',
    parse_avro_string raw w = (Returns t, tick w)
    /\ store_transaction t (tick w) = (Returns tt, w')
    /\ receive_transaction request w = (Returns ack, w')
    /\ ack_count ack = (transaction_counter w + 1)%Z.
Proof.
  intros request raw w H. rewrite parse_avro_string_returns.
  do 3 eexists. split; [reflexivity|]. split.
  - apply store_transaction_returns.
  - unfold receive_transaction, bind at 1, decode_body. rewrite H.
    unfold bind at 1. rewrite parse_avro_string_returns.
    unfold bind at 1. rewrite store_transaction_returns.
    unfold bind, get_transaction_counter, ret. simpl.
    split; reflexivity.
Qed.

Lemma receive_transaction_rejects : forall request e w,
  body_decode request = Raises e ->
  receive_transaction request w
  = (Raises {| status_code := 400;
               detail := py "Failed to process transaction: "
                         ++ description e |}, w).
Proof.
  intros request e w H.
  unfold receive_transaction, bind, decode_body. now rewrite H.
Qed.

(** C7. From the empty store, the store step run on fifteen records leaves
    the last ten of them in the buffer, in the order they came, the five
    oldest gone, and the counter at fifteen. *)
Theorem fifteen_appends_keep_last_ten : forall l clock,
  length l = 15 ->
  exists w',
    store_each l (initial_world clock) = (Returns tt, w')
    /\ transaction_storage w' = skipn 5 l
    /\ length (transaction_storage w') = 10
    /\ transaction_counter w' = 15%Z.
Proof.
  intros l clock H. rewrite store_each_returns by (simpl; lia).
  eexists. split; [reflexivity|].
  unfold with_store, initial_world;
    cbn [transaction_storage transaction_counter app].
  split; [|split].
  - unfold last_n. rewrite H. reflexivity.
  - apply last_n_length. lia.
  - rewrite H. reflexivity.
Qed.

Lemma fifteen_appends_keep_last_ten_witness :
  length fifteen_records = 15
  /\ exists w',
       store_each fifteen_records (initial_world epoch) = (Returns tt, w')
       /\ transaction_storage w' = skipn 5 fifteen_records
       /\ length (transaction_storage w') = 10
       /\ transaction_counter w' = 15%Z.
Proof.
  split; [reflexivity|].
  exact (@fifteen_appends_keep_last_ten fifteen_records epoch eq_refl).
Defined.

Lemma reset_counters_returns : forall w,
  reset_counters w
  = (Returns {| reset_status := py "success";
                reset_message := py "Counters reset successfully";
                reset_timestamp := isoformat (wall_clock w (ticks w)) |},
     tick (with_store w 0 [])).
Proof. reflexivity. Qed.

Lemma get_transactions_returns : forall w,
  get_transactions w
  = (Returns {| total_count := transaction_counter w;
                last_10_transactions := rev (transaction_storage w);
                last_updated := wall_clock w (ticks w);
                poc_status := py "active";
                processing_mode := py "python_avro" |},
     tick w).
Proof. reflexivity. Qed.

Lemma store_transaction_in_step : forall t w w',
  store_in_step w ->
  store_transaction t w = (Returns tt, w') ->
  store_in_step w'.
Proof.
  intros t w w' [Hc Hl] H. rewrite store_transaction_returns in H.
  inversion H; subst w'; clear H. unfold store_in_step, with_store; simpl.
  split; [lia|].
  destruct (Nat.ltb 10 (length (transaction_storage w ++ [t]))) eqn:E.
  - apply Nat.ltb_lt in E. rewrite last_n_length by lia.
    rewrite length_app in E. simpl in E. lia.
  - apply Nat.ltb_ge in E. rewrite length_app in *. simpl in *. lia.
Qed.

Lemma handled_in_step : forall w w',
  store_in_step w -> handled w w' -> store_in_step w'.
Proof.
  intros w w' Hw [request| | | |]; try exact Hw.
  - destruct (body_decode request) as [raw|e] eqn:D.
    + destruct (@receive_transaction_stores request raw w D)
        as (t & ack & w1 & _ & S1 & R & _).
      rewrite R. simpl.
      apply (@store_transaction_in_step t (tick w) w1); [exact Hw|exact S1].
    + rewrite (@receive_transaction_rejects request e w D). exact Hw.
  - rewrite reset_counters_returns. unfold store_in_step. simpl. lia.
Qed.

Lemma reachable_in_step : forall clock w,
  reachable clock w -> store_in_step w.
Proof.
  intros clock w H. induction H as [|w w' _ IH Hstep].
  - unfold store_in_step. simpl. lia.
  - exact (handled_in_step IH Hstep).
Qed.

(** C8. From any state, the reset handler returns with the counter at zero
    and the buffer empty, both in the one state it leaves; and in no state
    the process can be in between two handlers is the counter zero with
    records in the buffer, or the buffer empty with a counter above zero. *)
Theorem reset_clears_both :
  (forall w, exists ack w',
      reset_counters w = (Returns ack, w')
      /\ transaction_counter w' = 0%Z /\ transaction_storage w' = [])
  /\ (forall clock w,
         reachable clock w ->
         (transaction_counter w = 0%Z <-> transaction_storage w = [])).
Proof.
  split.
  - intros w. rewrite reset_counters_returns.
    do 2 eexists. split; [reflexivity|]. split; reflexivity.
  - intros clock w H. destruct (reachable_in_step H) as [Hc Hl]. split.
    + intros E. rewrite E in Hl.
      destruct (transaction_storage w); [reflexivity|simpl in Hl; lia].
    + intros E. rewrite E in Hl. simpl in Hl. lia.
Qed.

(** C9. Reading twice in a row gives the same count and the same records,
    newest first, the same two tags, and differs in the stamp of the reading
    only; the counter and the buffer are after each read what they were
    before it. *)
Theorem read_is_idempotent : forall w,
  exists r1 w1 r2 w2,
    get_transactions w = (Returns r1, w1)
    /\ get_transactions w1 = (Returns r2, w2)
    /\ total_count r1 = total_count r2
    /\ last_10_transactions r1 = last_10_transactions r2
    /\ poc_status r1 = poc_status r2
    /\ processing_mode r1 = processing_mode r2
    /\ total_count r1 = transaction_counter w
    /\ last_10_transactions r1 = rev (transaction_storage w)
    /\ transaction_counter w1 = transaction_counter w
    /\ transaction_storage w1 = transaction_storage w
    /\ transaction_counter w2 = transaction_counter w
    /\ transaction_storage w2 = transaction_storage w.
Proof.
  intros w. do 4 eexists.
  split; [apply get_transactions_returns|].
  split; [apply get_transactions_returns|].
  simpl. repeat split; reflexivity.
Qed.

(** * Further properties of the code *)

(** ** What the extractor can return *)

Lemma wrapped_form_quotes : forall f v d,
  wrapped_form f v d ->
  quote_free v
  /\ (exists a b, d = a ++ QUOTE :: v ++ QUOTE :: b)
  /\ exists d', d = QUOTE :: d'.
Proof.
  intros f v d [w1 w2 w3 w4 w5 w6 _ _ _ _ _ _ Hv].
  split; [exact Hv|]. split.
  - exists (QUOTE :: f ++ QUOTE :: w1 ++ COLON :: w2 ++ LBRACE :: w3
            ++ py "'string'" ++ w4 ++ COLON :: w5), (w6 ++ [RBRACE]).
    simpl. repeat (rewrite <- app_assoc; simpl). reflexivity.
  - eexists. reflexivity.
Qed.

Lemma bare_form_quotes : forall f v d,
  bare_form f v d ->
  quote_free v
  /\ (exists a b, d = a ++ QUOTE :: v ++ QUOTE :: b)
  /\ exists d', d = QUOTE :: d'.
Proof.
  intros f v d [w1 w2 _ _ Hv].
  split; [exact Hv|]. split.
  - exists (QUOTE :: f ++ QUOTE :: w1 ++ COLON :: w2), [].
    simpl. repeat (rewrite <- app_assoc; simpl). reflexivity.
  - eexists. reflexivity.
Qed.

(** The three ways the extractor comes to its result. *)
Lemma extract_by_cases : forall f raw,
  (exists n, first_wrapped_at f raw n (_extract_string_value raw f))
  \/ (no_wrapped f raw
      /\ exists n, first_bare_at f raw n (_extract_string_value raw f))
  \/ (no_wrapped f raw /\ no_bare f raw
      /\ _extract_string_value raw f = UNKNOWN).
Proof.
  intros f raw. unfold _extract_string_value.
  destruct (re_search (pattern1 f) raw) as [m|] eqn:E1.
  - left. exists (start m). now apply search_wrapped_inv.
  - right. apply search_no_wrapped in E1.
    destruct (re_search (pattern2 f) raw) as [m|] eqn:E2.
    + left. split; [exact E1|]. exists (start m). now apply search_bare_inv.
    + right. apply search_no_bare in E2. auto.
Qed.

Lemma occurrence_has_quote : forall (form : str -> str -> Prop) raw n v,
  (forall d, form v d -> exists d', d = QUOTE :: d') ->
  occurs_at form raw n v -> quote_free raw -> False.
Proof.
  intros form raw n v Hform (pre & d & post & -> & _ & Hd) Hq.
  destruct (Hform d Hd) as (d' & ->).
  unfold quote_free in Hq. rewrite forallb_app in Hq. simpl in Hq.
  rewrite andb_false_r in Hq. discriminate.
Qed.

Lemma occurrence_quoted : forall (form : str -> str -> Prop) raw n v,
  (forall d, form v d -> exists a b, d = a ++ QUOTE :: v ++ QUOTE :: b) ->
  occurs_at form raw n v ->
  exists pre post, raw = pre ++ QUOTE :: v ++ QUOTE :: post.
Proof.
  intros form raw n v Hform (pre & d & post & -> & _ & Hd).
  destruct (Hform d Hd) as (a & b & ->).
  exists (pre ++ a), (b ++ post).
  repeat (rewrite <- app_assoc; simpl). reflexivity.
Qed.

Lemma wrapped_at_facts : forall f raw n v,
  wrapped_at f raw n v ->
  v <> [] /\ quote_free v
  /\ (exists pre post, raw = pre ++ QUOTE :: v ++ QUOTE :: post)
  /\ (quote_free raw -> False).
Proof.
  intros f raw n v [Ho Hv].
  assert (Q : quote_free v).
  { destruct Ho as (pre & d & post & _ & _ & Hd).
    now destruct (wrapped_form_quotes Hd). }
  repeat split; auto.
  - apply (occurrence_quoted (form:=wrapped_form f) (n:=n)); auto.
    intros d Hd. now destruct (wrapped_form_quotes Hd) as (_ & H & _).
  - apply (occurrence_has_quote (form:=wrapped_form f) (n:=n) (v:=v)); auto.
    intros d Hd. now destruct (wrapped_form_quotes Hd) as (_ & _ & H).
Qed.

Lemma bare_at_facts : forall f raw n v,
  bare_at f raw n v ->
  v <> [] /\ quote_free v
  /\ (exists pre post, raw = pre ++ QUOTE :: v ++ QUOTE :: post)
  /\ (quote_free raw -> False).
Proof.
  intros f raw n v [Ho Hv].
  assert (Q : quote_free v).
  { destruct Ho as (pre & d & post & _ & _ & Hd).
    now destruct (bare_form_quotes Hd). }
  repeat split; auto.
  - apply (occurrence_quoted (form:=bare_form f) (n:=n)); auto.
    intros d Hd. now destruct (bare_form_quotes Hd) as (_ & H & _).
  - apply (occurrence_has_quote (form:=bare_form f) (n:=n) (v:=v)); auto.
    intros d Hd. now destruct (bare_form_quotes Hd) as (_ & _ & H).
Qed.

(** Whatever the text, the value extracted is a text of one character at
    least without a quotation mark. *)
Lemma extract_clean : forall raw f,
  _extract_string_value raw f <> []
  /\ quote_free (_extract_string_value raw f).
Proof.
  intros raw f.
  destruct (extract_by_cases f raw)
    as [(n & H & _)|[(_ & n & H & _)|(_ & _ & ->)]].
  - destruct (wrapped_at_facts H) as (A & B & _). auto.
  - destruct (bare_at_facts H) as (A & B & _). auto.
  - split; [discriminate|reflexivity].
Qed.

(** X1. On every text, each of the five fields of the record the parser
    returns holds a text of one character at least with no quotation mark in
    it: the parser never stores an empty text. *)
Theorem parsed_fields_are_clean : forall raw w,
  exists t,
    parse_avro_string raw w = (Returns t, tick w)
    /\ forall f, In f field_names ->
                 exists v, field_value f t = Some v
                           /\ v <> [] /\ quote_free v.
Proof.
  intros raw w. rewrite parse_avro_string_returns.
  eexists. split; [reflexivity|].
  intros f Hin. exists (_extract_string_value raw f). split.
  - simpl in Hin.
    destruct Hin as [<-|[<-|[<-|[<-|[<-|[]]]]]]; reflexivity.
  - apply extract_clean.
Qed.

(** X2. For a name of word characters the extractor has three outcomes and
    no other: the value of the first union form of the name; or, the text
    holding no union form with a value, the value of the first direct form;
    or, the text holding neither, the sentinel UNKNOWN. *)
Theorem extraction_cases : forall raw f,
  is_word_name f = true ->
  (exists n, first_wrapped_at f raw n (_extract_string_value raw f))
  \/ (no_wrapped f raw
      /\ exists n, first_bare_at f raw n (_extract_string_value raw f))
  \/ (no_wrapped f raw /\ no_bare f raw
      /\ _extract_string_value raw f = UNKNOWN).
Proof. intros raw f _. apply extract_by_cases. Qed.

Lemma extraction_cases_witness :
  is_word_name (py "data") = true
  /\ ((exists n, first_wrapped_at (py "data") (py "{'data': 'x'}") n
                   (_extract_string_value (py "{'data': 'x'}") (py "data")))
      \/ (no_wrapped (py "data") (py "{'data': 'x'}")
          /\ exists n, first_bare_at (py "data") (py "{'data': 'x'}") n
                         (_extract_string_value (py "{'data': 'x'}")
                            (py "data")))
      \/ (no_wrapped (py "data") (py "{'data': 'x'}")
          /\ no_bare (py "data") (py "{'data': 'x'}")
          /\ _extract_string_value (py "{'data': 'x'}") (py "data")
             = UNKNOWN)).
Proof.
  split; [reflexivity|].
  exact (@extraction_cases (py "{'data': 'x'}") (py "data") eq_refl).
Defined.

(** X3. For a name of word characters, what the extractor returns is the
    sentinel UNKNOWN or a text that stands in the input between two
    quotation marks: it never makes up a value. *)
Theorem extracted_value_stands_quoted : forall raw f,
  is_word_name f = true ->
  _extract_string_value raw f = UNKNOWN
  \/ exists pre post,
       raw = pre ++ QUOTE :: _extract_string_value raw f ++ QUOTE :: post.
Proof.
  intros raw f _.
  destruct (extract_by_cases f raw)
    as [(n & H & _)|[(_ & n & H & _)|(_ & _ & E)]].
  - right. now destruct (wrapped_at_facts H) as (_ & _ & X & _).
  - right. now destruct (bare_at_facts H) as (_ & _ & X & _).
  - left. exact E.
Qed.

Lemma extracted_value_stands_quoted_witness :
  is_word_name (py "data") = true
  /\ (_extract_string_value (py "{'data': 'x'}") (py "data") = UNKNOWN
      \/ exists pre post,
           py "{'data': 'x'}"
           = pre ++ QUOTE :: _extract_string_value (py "{'data': 'x'}")
                               (py "data") ++ QUOTE :: post).
Proof.
  split; [reflexivity|].
  exact (@extracted_value_stands_quoted (py "{'data': 'x'}") (py "data")
           eq_refl).
Defined.

(** X4. A text with no quotation mark in it, and the empty text is one,
    parses to the record whose five fields are all UNKNOWN. *)
Theorem no_quote_no_field : forall raw w,
  quote_free raw ->
  parse_avro_string raw w = (Returns (parsed_record raw (wall_clock w (ticks w))),
                             tick w)
  /\ parsed_record raw (wall_clock w (ticks w))
     = {| authorizer_usrnbr := Some UNKNOWN;
          creat_usrnbr := Some UNKNOWN;
          creat_time := Some UNKNOWN;
          data := Some UNKNOWN;
          usrname := Some UNKNOWN;
          received_at := wall_clock w (ticks w) |}.
Proof.
  intros raw w Hq. split; [apply parse_avro_string_returns|].
  assert (G : forall f, _extract_string_value raw f = UNKNOWN).
  { intros f. apply extract_unknown.
    - intros n v H. now destruct (wrapped_at_facts H) as (_ & _ & _ & X).
    - intros n v H. now destruct (bare_at_facts H) as (_ & _ & _ & X). }
  unfold parsed_record. now rewrite !G.
Qed.

Lemma no_quote_no_field_witness :
  quote_free (py "}{ garbage: 123")
  /\ parse_avro_string (py "}{ garbage: 123") (initial_world epoch)
     = (Returns (parsed_record (py "}{ garbage: 123")
                   (wall_clock (initial_world epoch)
                      (ticks (initial_world epoch)))),
        tick (initial_world epoch))
  /\ parsed_record (py "}{ garbage: 123")
       (wall_clock (initial_world epoch) (ticks (initial_world epoch)))
     = {| authorizer_usrnbr := Some UNKNOWN;
          creat_usrnbr := Some UNKNOWN;
          creat_time := Some UNKNOWN;
          data := Some UNKNOWN;
          usrname := Some UNKNOWN;
          received_at := wall_clock (initial_world epoch)
                           (ticks (initial_world epoch)) |}.
Proof.
  split; [reflexivity|].
  exact (@no_quote_no_field (py "}{ garbage: 123") (initial_world epoch)
           eq_refl).
Defined.

(** ** The store under the handlers *)

Lemma last_n_snoc : forall (A : Type) n (s : list A) t,
  last_n (S n) (s ++ [t]) = last_n n s ++ [t].
Proof.
  intros A n s t. unfold last_n. rewrite length_app, skipn_app. simpl.
  replace (length s + 1 - S n) with (length s - n) by lia.
  replace (length s - n - length s) with 0 by lia.
  reflexivity.
Qed.

(** What the store step leaves in the buffer: the last nine of before and
    the record. *)
Lemma stored_after_append : forall (s : list TransactionData) t,
  (if Nat.ltb 10 (length (s ++ [t])) then last_n 10 (s ++ [t]) else s ++ [t])
  = last_n 9 s ++ [t].
Proof.
  intros s t. destruct (Nat.ltb 10 (length (s ++ [t]))) eqn:E.
  - apply last_n_snoc.
  - apply Nat.ltb_ge in E. rewrite length_app in E. simpl in E.
    rewrite last_n_short by lia. reflexivity.
Qed.

Lemma receive_transaction_accepts : forall request raw w,
  body_decode request = Returns raw ->
  receive_transaction request w
  = (Returns {| ack_status := py "success";
                ack_message := py "Transaction received successfully";
                ack_count := transaction_counter w + 1;
                ack_poc_id := transaction_counter w + 1;
                ack_user := Some (_extract_string_value raw (py "usrname"));
                ack_received_at := isoformat (wall_clock w (ticks w)) |},
     with_store (tick w) (transaction_counter w + 1)
       (last_n 9 (transaction_storage w)
        ++ [parsed_record raw (wall_clock w (ticks w))])).
Proof.
  intros request raw w H.
  unfold receive_transaction, bind at 1, decode_body. rewrite H.
  unfold bind at 1. rewrite parse_avro_string_returns.
  unfold bind at 1. rewrite store_transaction_returns.
  unfold bind, get_transaction_counter, ret, with_store.
  cbn [wall_clock ticks transaction_counter transaction_storage tick
       usrname received_at].
  rewrite stored_after_append. reflexivity.
Qed.

(** X5. From a buffer of ten records at most, the store step run on any
    list of records leaves the last ten of the old records followed by the
    new ones, in their order, and raises the counter by the number of new
    records; the buffer then holds ten records, or all of them when they are
    fewer. *)
Theorem appends_keep_last_ten : forall l w,
  length (transaction_storage w) <= 10 ->
  exists w',
    store_each l w = (Returns tt, w')
    /\ transaction_storage w' = last_n 10 (transaction_storage w ++ l)
    /\ length (transaction_storage w')
       = Nat.min 10 (length (transaction_storage w) + length l)
    /\ transaction_counter w'
       = (transaction_counter w + Z.of_nat (length l))%Z
    /\ ticks w' = ticks w.
Proof.
  intros l w H. rewrite store_each_returns by exact H.
  eexists. split; [reflexivity|].
  unfold with_store; cbn [transaction_storage transaction_counter ticks].
  repeat split.
  unfold last_n. rewrite length_skipn, length_app. lia.
Qed.

Lemma appends_keep_last_ten_witness :
  length (transaction_storage (initial_world epoch)) <= 10
  /\ exists w',
       store_each fifteen_records (initial_world epoch) = (Returns tt, w')
       /\ transaction_storage w'
          = last_n 10 (transaction_storage (initial_world epoch)
                       ++ fifteen_records)
       /\ length (transaction_storage w')
          = Nat.min 10 (length (transaction_storage (initial_world epoch))
                        + length fifteen_records)
       /\ transaction_counter w'
          = (transaction_counter (initial_world epoch)
             + Z.of_nat (length fifteen_records))%Z
       /\ ticks w' = ticks (initial_world epoch).
Proof.
  assert (H : length (transaction_storage (initial_world epoch)) <= 10)
    by (simpl; lia).
  split; [exact H|].
  exact (@appends_keep_last_ten fifteen_records (initial_world epoch) H).
Defined.

(** X6. In every state the process reaches by its handlers, the counter is
    not negative and the buffer holds as many records as the counter says,
    up to ten: never more than ten, and fewer than ten only when fewer were
    accepted since the start or the last reset. *)
Theorem buffer_tracks_counter : forall clock w,
  reachable clock w ->
  (0 <= transaction_counter w)%Z
  /\ Z.of_nat (length (transaction_storage w))
     = Z.min (transaction_counter w) 10
  /\ length (transaction_storage w) <= 10.
Proof.
  intros clock w H. destruct (reachable_in_step H) as [Hc Hl].
  repeat split; auto. lia.
Qed.

Lemma buffer_tracks_counter_witness :
  reachable epoch
    (snd (receive_transaction (request_of (py "{'usrname': 'alice'}"))
            (initial_world epoch)))
  /\ (0 <= transaction_counter
             (snd (receive_transaction
                     (request_of (py "{'usrname': 'alice'}"))
                     (initial_world epoch))))%Z
  /\ Z.of_nat (length (transaction_storage
                         (snd (receive_transaction
                                 (request_of (py "{'usrname': 'alice'}"))
                                 (initial_world epoch)))))
     = Z.min (transaction_counter
                (snd (receive_transaction
                        (request_of (py "{'usrname': 'alice'}"))
                        (initial_world epoch)))) 10
  /\ length (transaction_storage
               (snd (receive_transaction
                       (request_of (py "{'usrname': 'alice'}"))
                       (initial_world epoch)))) <= 10.
Proof.
  assert (H : reachable epoch
                (snd (receive_transaction
                        (request_of (py "{'usrname': 'alice'}"))
                        (initial_world epoch)))).
  { eapply Reach_step; [apply Reach_start|apply Handled_post]. }
  split; [exact H|].
  exact (@buffer_tracks_counter epoch _ H).
Defined.

(** X7. A POST whose body decodes, followed by a read: the POST answers
    with the new count, as count and as id, and with the [usrname] it
    extracted; the read reports that same count and lists the record just
    parsed first, before the nine newest of the records held before. *)
Theorem post_then_read : forall request raw w,
  body_decode request = Returns raw ->
  exists ack w1 r w2,
    receive_transaction request w = (Returns ack, w1)
    /\ get_transactions w1 = (Returns r, w2)
    /\ ack_count ack = (transaction_counter w + 1)%Z
    /\ ack_poc_id ack = ack_count ack
    /\ ack_user ack = Some (_extract_string_value raw (py "usrname"))
    /\ total_count r = ack_count ack
    /\ last_10_transactions r
       = parsed_record raw (wall_clock w (ticks w))
         :: rev (last_n 9 (transaction_storage w)).
Proof.
  intros request raw w H.
  rewrite (receive_transaction_accepts request w H).
  do 4 eexists. split; [reflexivity|].
  split; [apply get_transactions_returns|].
  cbn [ack_count ack_poc_id ack_user total_count last_10_transactions
       with_store transaction_storage transaction_counter].
  repeat split. apply rev_unit.
Qed.

Lemma post_then_read_witness :
  body_decode (request_of (py "{'usrname': 'alice'}"))
  = Returns (py "{'usrname': 'alice'}")
  /\ exists ack w1 r w2,
       receive_transaction (request_of (py "{'usrname': 'alice'}"))
         (initial_world epoch) = (Returns ack, w1)
       /\ get_transactions w1 = (Returns r, w2)
       /\ ack_count ack = (transaction_counter (initial_world epoch) + 1)%Z
       /\ ack_poc_id ack = ack_count ack
       /\ ack_user ack
          = Some (_extract_string_value (py "{'usrname': 'alice'}")
                    (py "usrname"))
       /\ total_count r = ack_count ack
       /\ last_10_transactions r
          = parsed_record (py "{'usrname': 'alice'}")
              (wall_clock (initial_world epoch)
                 (ticks (initial_world epoch)))
            :: rev (last_n 9 (transaction_storage (initial_world epoch))).
Proof.
  split; [reflexivity|].
  exact (@post_then_read (request_of (py "{'usrname': 'alice'}"))
           (py "{'usrname': 'alice'}") (initial_world epoch) eq_refl).
Defined.

(** X8. A POST whose body does not decode is answered with the error 400,
    whose detail starts with the fixed sentence and carries the text of the
    exception; nothing is counted, nothing is stored, the clock is not read,
    and a read after it returns what a read before it would have. *)
Theorem rejected_post_changes_nothing : forall request e w,
  body_decode request = Raises e ->
  exists http,
    receive_transaction request w = (Raises http, w)
    /\ status_code http = 400%Z
    /\ detail http = py "Failed to process transaction: " ++ description e
    /\ get_transactions (snd (receive_transaction request w))
       = get_transactions w.
Proof.
  intros request e w H.
  rewrite (@receive_transaction_rejects request e w H).
  eexists. repeat split.
Qed.

Lemma rejected_post_changes_nothing_witness :
  body_decode (bad_request (py "invalid start byte"))
  = Raises {| description := py "invalid start byte" |}
  /\ exists http,
       receive_transaction (bad_request (py "invalid start byte"))
         (initial_world epoch) = (Raises http, initial_world epoch)
       /\ status_code http = 400%Z
       /\ detail http
          = py "Failed to process transaction: "
            ++ description {| description := py "invalid start byte" |}
       /\ get_transactions
            (snd (receive_transaction (bad_request (py "invalid start byte"))
                    (initial_world epoch)))
          = get_transactions (initial_world epoch).
Proof.
  split; [reflexivity|].
  exact (@rejected_post_changes_nothing
           (bad_request (py "invalid start byte"))
           {| description := py "invalid start byte" |}
           (initial_world epoch) eq_refl).
Defined.

(** X9. After a reset, whatever the state before: a read reports the count
    zero and no record; a second reset changes neither; and the next POST
    whose body decodes is number one and its record stands alone in the
    buffer. *)
Theorem reset_starts_afresh : forall w request raw,
  body_decode request = Returns raw ->
  exists a w1,
    reset_counters w = (Returns a, w1)
    /\ reset_status a = py "success"
    /\ (exists r w2, get_transactions w1 = (Returns r, w2)
                     /\ total_count r = 0%Z
                     /\ last_10_transactions r = [])
    /\ (exists a' w3, reset_counters w1 = (Returns a', w3)
                      /\ transaction_counter w3 = 0%Z
                      /\ transaction_storage w3 = [])
    /\ (exists ack w4, receive_transaction request w1 = (Returns ack, w4)
                       /\ ack_count ack = 1%Z
                       /\ transaction_counter w4 = 1%Z
                       /\ transaction_storage w4
                          = [parsed_record raw (wall_clock w (S (ticks w)))]).
Proof.
  intros w request raw H. rewrite reset_counters_returns.
  do 2 eexists. split; [reflexivity|]. split; [reflexivity|].
  split; [|split].
  - do 2 eexists. split; [apply get_transactions_returns|].
    split; reflexivity.
  - do 2 eexists. split; [apply reset_counters_returns|].
    split; reflexivity.
  - rewrite (receive_transaction_accepts request _ H).
    do 2 eexists. split; [reflexivity|]. repeat split.
Qed.

Lemma reset_starts_afresh_witness :
  body_decode (request_of (py "{'usrname': 'alice'}"))
  = Returns (py "{'usrname': 'alice'}")
  /\ exists a w1,
       reset_counters (initial_world epoch) = (Returns a, w1)
       /\ reset_status a = py "success"
       /\ (exists r w2, get_transactions w1 = (Returns r, w2)
                        /\ total_count r = 0%Z
                        /\ last_10_transactions r = [])
       /\ (exists a' w3, reset_counters w1 = (Returns a', w3)
                         /\ transaction_counter w3 = 0%Z
                         /\ transaction_storage w3 = [])
       /\ (exists ack w4,
              receive_transaction (request_of (py "{'usrname': 'alice'}")) w1
              = (Returns ack, w4)
              /\ ack_count ack = 1%Z
              /\ transaction_counter w4 = 1%Z
              /\ transaction_storage w4
                 = [parsed_record (py "{'usrname': 'alice'}")
                      (wall_clock (initial_world epoch)
                         (S (ticks (initial_world epoch))))]).
Proof.
  split; [reflexivity|].
  exact (@reset_starts_afresh (initial_world epoch)
           (request_of (py "{'usrname': 'alice'}"))
           (py "{'usrname': 'alice'}") eq_refl).
Defined.

(** X10. What each handler does to the counter, from any state: a POST
    whose body decodes adds exactly one, a POST whose body does not decode
    leaves it, a read, a health check and the root leave it, the reset sets
    it to zero; so a step of the process that is not the reset never lowers
    the counter. *)
Theorem only_reset_lowers_counter : forall w,
  (forall request raw,
      body_decode request = Returns raw ->
      transaction_counter (snd (receive_transaction request w))
      = (transaction_counter w + 1)%Z)
  /\ (forall request e,
         body_decode request = Raises e ->
         transaction_counter (snd (receive_transaction request w))
         = transaction_counter w)
  /\ transaction_counter (snd (get_transactions w)) = transaction_counter w
  /\ transaction_counter (snd (health_check w)) = transaction_counter w
  /\ snd (root w) = w
  /\ transaction_counter (snd (reset_counters w)) = 0%Z
  /\ (forall w',
         handled w w' ->
         transaction_counter w' = transaction_counter w
         \/ transaction_counter w' = (transaction_counter w + 1)%Z
         \/ (w' = snd (reset_counters w) /\ transaction_counter w' = 0%Z)).
Proof.
  intros w.
  assert (A : forall request raw,
             body_decode request = Returns raw ->
             transaction_counter (snd (receive_transaction request w))
             = (transaction_counter w + 1)%Z).
  { intros request raw D.
    now rewrite (receive_transaction_accepts request w D). }
  assert (B : forall request e,
             body_decode request = Raises e ->
             transaction_counter (snd (receive_transaction request w))
             = transaction_counter w).
  { intros request e D.
    now rewrite (@receive_transaction_rejects request e w D). }
  split; [exact A|]. split; [exact B|].
  split; [reflexivity|]. split; [reflexivity|].
  split; [reflexivity|]. split; [reflexivity|].
  intros w' [request| | | |].
  - destruct (body_decode request) as [raw|e] eqn:D.
    + right. left. exact (A request raw D).
    + left. exact (B request e D).
  - left. reflexivity.
  - right. right. split; reflexivity.
  - left. reflexivity.
  - left. reflexivity.
Qed.

Lemma last_n_le : forall (A : Type) n (l : list A),
  length (last_n n l) <= n.
Proof.
  intros A n l. unfold last_n. rewrite length_skipn. lia.
Qed.

Lemma accepted_texts_cons : forall r rs,
  accepted_texts (r :: rs)
  = match body_decode r with
    | Returns raw => raw :: accepted_texts rs
    | Raises _ => accepted_texts rs
    end.
Proof.
  intros r rs. unfold accepted_texts. simpl.
  destruct (body_decode r); reflexivity.
Qed.

Lemma post_each_state : forall requests w,
  length (transaction_storage w) <= 10 ->
  post_each requests w
  = {| wall_clock := wall_clock w;
       ticks := ticks w + length (accepted_texts requests);
       transaction_counter :=
         transaction_counter w
         + Z.of_nat (length (accepted_texts requests));
       transaction_storage :=
         last_n 10 (transaction_storage w
                    ++ parsed_records (wall_clock w) (ticks w)
                         (accepted_texts requests)) |}.
Proof.
  induction requests as [|r rs IH]; intros w H.
  - simpl. rewrite app_nil_r, last_n_short, Nat.add_0_r, Z.add_0_r by lia.
    destruct w; reflexivity.
  - rewrite accepted_texts_cons. simpl post_each.
    destruct (body_decode r) as [raw|e] eqn:D.
    + rewrite (receive_transaction_accepts r w D). cbn [snd].
      rewrite IH.
      * unfold with_store, tick;
          cbn [wall_clock ticks transaction_counter transaction_storage].
        rewrite <- stored_after_append, trim_then_append.
        change (length (raw :: accepted_texts rs))
          with (S (length (accepted_texts rs))).
        rewrite Nat2Z.inj_succ. cbn [parsed_records].
        f_equal; lia.
      * unfold with_store; cbn [transaction_storage].
        rewrite length_app. simpl.
        pose proof (last_n_le 9 (transaction_storage w)). lia.
    + rewrite (@receive_transaction_rejects r e w D). cbn [snd].
      now apply IH.
Qed.

(** X11. A run of POST requests, some rejected: the requests whose body
    does not decode leave no trace, each of the others takes one reading of
    the clock and is counted, and the buffer ends with the last ten of the
    old records followed by the records parsed from the accepted bodies, in
    the order the requests came; a read then lists them newest first. *)
Theorem posts_fill_the_store : forall requests w,
  length (transaction_storage w) <= 10 ->
  transaction_counter (post_each requests w)
  = (transaction_counter w
     + Z.of_nat (length (accepted_texts requests)))%Z
  /\ ticks (post_each requests w)
     = ticks w + length (accepted_texts requests)
  /\ transaction_storage (post_each requests w)
     = last_n 10 (transaction_storage w
                  ++ parsed_records (wall_clock w) (ticks w)
                       (accepted_texts requests))
  /\ exists r w',
       get_transactions (post_each requests w) = (Returns r, w')
       /\ total_count r
          = (transaction_counter w
             + Z.of_nat (length (accepted_texts requests)))%Z
       /\ last_10_transactions r
          = rev (last_n 10 (transaction_storage w
                            ++ parsed_records (wall_clock w) (ticks w)
                                 (accepted_texts requests))).
Proof.
  intros requests w H. rewrite (@post_each_state requests w H).
  cbn [transaction_counter ticks transaction_storage].
  repeat split.
  do 2 eexists. split; [apply get_transactions_returns|].
  split; reflexivity.
Qed.

Lemma posts_fill_the_store_witness :
  length (transaction_storage (initial_world epoch)) <= 10
  /\ transaction_counter (post_each twelve_requests (initial_world epoch))
     = (transaction_counter (initial_world epoch)
        + Z.of_nat (length (accepted_texts twelve_requests)))%Z
  /\ ticks (post_each twelve_requests (initial_world epoch))
     = ticks (initial_world epoch) + length (accepted_texts twelve_requests)
  /\ transaction_storage (post_each twelve_requests (initial_world epoch))
     = last_n 10 (transaction_storage (initial_world epoch)
                  ++ parsed_records (wall_clock (initial_world epoch))
                       (ticks (initial_world epoch))
                       (accepted_texts twelve_requests))
  /\ exists r w',
       get_transactions (post_each twelve_requests (initial_world epoch))
       = (Returns r, w')
       /\ total_count r
          = (transaction_counter (initial_world epoch)
             + Z.of_nat (length (accepted_texts twelve_requests)))%Z
       /\ last_10_transactions r
          = rev (last_n 10 (transaction_storage (initial_world epoch)
                            ++ parsed_records
                                 (wall_clock (initial_world epoch))
                                 (ticks (initial_world epoch))
                                 (accepted_texts twelve_requests))).
Proof.
  assert (H : length (transaction_storage (initial_world epoch)) <= 10)
    by (simpl; lia).
  split; [exact H|].
  exact (@posts_fill_the_store twelve_requests (initial_world epoch) H).
Defined.

Example twelve_requests_count :
  transaction_counter (post_each twelve_requests (initial_world epoch))
  = 10%Z
  /\ length (transaction_storage
               (post_each twelve_requests (initial_world epoch))) = 10.
Proof. vm_compute. split; reflexivity. Qed.

(** ** The fallback record and the health check *)

(** X12. The fallback record is bounded whatever the text and the message:
    its [data] has 203 characters at most, its [usrname] is the marker
    followed by 50 characters of the message at most, 57 in all at most, and
    the whole message when it has 50 characters or fewer; its two user
    numbers are the marker; [creat_time] is the text of one reading of the
    clock and [received_at] is the next reading. *)
Theorem fallback_record_is_bounded : forall raw err w,
  exists t u p,
    _create_fallback_transaction raw err w = (Returns t, tick (tick w))
    /\ authorizer_usrnbr t = Some (py "PARSE_ERROR")
    /\ creat_usrnbr t = Some (py "PARSE_ERROR")
    /\ usrname t = Some u /\ starts_with (py "ERROR: ") u /\ length u <= 57
    /\ (length err <= 50 -> u = py "ERROR: " ++ err)
    /\ data t = Some p /\ length p <= 203
    /\ creat_time t = Some (isoformat (wall_clock w (ticks w)))
    /\ received_at t = wall_clock w (S (ticks w)).
Proof.
  intros raw err w. rewrite fallback_returns.
  do 3 eexists. split; [reflexivity|].
  cbn [authorizer_usrnbr creat_usrnbr usrname data creat_time received_at].
  split; [reflexivity|]. split; [reflexivity|]. split; [reflexivity|].
  split; [exists (firstn 50 err); reflexivity|].
  split.
  { rewrite length_app, length_firstn.
    assert (L : length (py "ERROR: ") = 7) by reflexivity.
    rewrite L. lia. }
  split.
  { intros L. now rewrite firstn_all2. }
  split; [reflexivity|]. split; [|split; reflexivity].
  rewrite length_app, length_firstn.
  assert (L3 : length (py "...") = 3) by reflexivity.
  assert (L0 : length (@nil char) = 0) by reflexivity.
  destruct (Nat.ltb 200 (length raw)); rewrite ?L3, ?L0; lia.
Qed.

(** X13. The health check reports the counter and reads the clock, no
    more: it leaves the counter and the buffer as they are, and a read after
    it reports the count the health check reported and the records a read
    before it would have listed. *)
Theorem health_check_reports_counter : forall w,
  exists h w1 r w2,
    health_check w = (Returns h, w1)
    /\ health_status h = py "healthy"
    /\ health_total_transactions h = transaction_counter w
    /\ health_timestamp h = isoformat (wall_clock w (ticks w))
    /\ transaction_counter w1 = transaction_counter w
    /\ transaction_storage w1 = transaction_storage w
    /\ get_transactions w1 = (Returns r, w2)
    /\ total_count r = health_total_transactions h
    /\ last_10_transactions r = rev (transaction_storage w).
Proof.
  intros w. do 4 eexists.
  split; [reflexivity|]. simpl. repeat split.
Qed.

(** ** Text before the first quotation mark *)








